(** * GPD Win 4 (7840U / 8840U) fan driver: the driver core, embedded and verified

    The development follows [gpd-fan.c]: the register map, the PWM scaler,
    the EC transport over the two index/data ports, the fan controller
    ([read_rpm], [set_fan_speed], [set_auto_mode]) and the hwmon callbacks
    ([fan_read], [fan_write]) together with the teardown hook [gpd_remove].

    Integers are [Z]; a conversion to [u8] is written [u8 z] wherever C
    converts implicitly (assignment to a [u8] object, passing a [u8]
    argument, returning from a [u8] function). *)

From Stdlib Require Import ZArith QArith Qround List Lia Bool.
From stdpp Require Import base list.
Import ListNotations.

Local Open Scope Z_scope.

(** ** What the driver takes from the kernel headers *)

Module Linux.

(** [enum hwmon_sensor_types] of <linux/hwmon.h>. *)
Inductive hwmon_sensor_types : Type :=
| hwmon_chip | hwmon_temp | hwmon_in | hwmon_curr | hwmon_power
| hwmon_energy | hwmon_humidity | hwmon_fan | hwmon_pwm | hwmon_intrusion.

Definition hwmon_sensor_types_eqb (a b : hwmon_sensor_types) : bool :=
  match a, b with
  | hwmon_chip, hwmon_chip | hwmon_temp, hwmon_temp | hwmon_in, hwmon_in
  | hwmon_curr, hwmon_curr | hwmon_power, hwmon_power
  | hwmon_energy, hwmon_energy | hwmon_humidity, hwmon_humidity
  | hwmon_fan, hwmon_fan | hwmon_pwm, hwmon_pwm
  | hwmon_intrusion, hwmon_intrusion => true
  | _, _ => false
  end.

#[export] Instance hwmon_sensor_types_eq_dec : EqDecision hwmon_sensor_types.
Proof. solve_decision. Defined.

(** The attribute numbers the callbacks receive in [u32 attr]: positions in
    [enum hwmon_fan_attributes] and [enum hwmon_pwm_attributes]. *)
Definition hwmon_fan_input : Z := 1.
Definition hwmon_pwm_input : Z := 0.
Definition hwmon_pwm_enable : Z := 1.

(** Error numbers of <uapi/asm-generic/errno*.h>. *)
Definition EINVAL : Z := 22.
Definition EOPNOTSUPP : Z := 95.

(** [DIV_ROUND_CLOSEST(x, divisor)] of <linux/math.h> at type [int] for both
    operands: same-sign operands add half the divisor before the (truncating)
    division, opposite-sign operands subtract it. *)
Definition DIV_ROUND_CLOSEST (x divisor : Z) : Z :=
  if Bool.eqb (0 <? x) (0 <? divisor)
  then Z.quot (x + Z.quot divisor 2) divisor
  else Z.quot (x - Z.quot divisor 2) divisor.

End Linux.
Export Linux.

(** ** Machine integers *)

(** Conversion to [u8]: reduction modulo 2^8. *)
Definition u8 (z : Z) : Z := z mod 256.

(** Conversion to [u16]: reduction modulo 2^16. *)
Definition u16 (z : Z) : Z := z mod 65536.

(** ** Register map and ports *)

Definition EC_ADDR_PORT : Z := 0x4E.
Definition EC_DATA_PORT : Z := 0x4F.

Definition REG_MANUAL_ENABLE : Z := 0x0275.
Definition REG_RPM_HIGH : Z := 0x0218.
Definition REG_RPM_LOW : Z := 0x0219.
Definition REG_PWM : Z := 0x1809.
Definition PWM_MAX_VAL : Z := 184.

(** ** The PWM scaler *)

(** [static u8 scale_pwm(u8 val)]; [val] is the already converted argument. *)
Definition scale_pwm (val : Z) : Z :=
  if 255 <=? val then u8 PWM_MAX_VAL
  else if val =? 0 then u8 1
  else u8 (1 + DIV_ROUND_CLOSEST (val * (PWM_MAX_VAL - 1)) 255).

(** The reference rounding the scaler is compared with: the nearest integer,
    a tie going up, i.e. the floor of [q + 1/2]. *)
Definition round_half_up (q : Q) : Z := Qfloor (q + (1 # 2))%Q.

(** The reference scaler, in the words of the design:
    255 maps to 184, 0 maps to 1, anything else to
    1 + round-half-up (duty * 183 / 255). *)
Definition scale_reference (duty : Z) : Z :=
  if duty =? 255 then 184
  else if duty =? 0 then 1
  else 1 + round_half_up (inject_Z (duty * 183) / inject_Z 255)%Q.

(** ** Fan control state *)

(** [struct gpd_fan_data]. *)
Record gpd_fan_data : Type := {
  pwm_value : Z;        (* u8, 0-255 *)
  manual_mode : bool
}.

(** The static initialiser of [fan_data]. *)
Definition fan_data_init : gpd_fan_data :=
  {| pwm_value := 255; manual_mode := false |}.

(** ** Driver code as programs over its primitive actions

    What the driver does to the outside is port output, port input, taking and
    releasing [ec_lock], and loads and stores of the two fields of the global
    [fan_data].  A driver function is a tree of these actions; the sequential
    interpreter [run] and the interleaving machine [step] below execute the
    same trees. *)

Inductive prog (A : Type) : Type :=
| Ret (a : A)
| Outb (value port : Z) (k : prog A)
| Inb (port : Z) (k : Z -> prog A)
| MutexLock (k : prog A)
| MutexUnlock (k : prog A)
| LoadPwmValue (k : Z -> prog A)
| StorePwmValue (v : Z) (k : prog A)
| LoadManualMode (k : bool -> prog A)
| StoreManualMode (b : bool) (k : prog A).

Arguments Ret {A} a.
Arguments Outb {A} value port k.
Arguments Inb {A} port k.
Arguments MutexLock {A} k.
Arguments MutexUnlock {A} k.
Arguments LoadPwmValue {A} k.
Arguments StorePwmValue {A} v k.
Arguments LoadManualMode {A} k.
Arguments StoreManualMode {A} b k.

Fixpoint bind {A B : Type} (p : prog A) (f : A -> prog B) : prog B :=
  match p with
  | Ret a => f a
  | Outb v port k => Outb v port (bind k f)
  | Inb port k => Inb port (fun x => bind (k x) f)
  | MutexLock k => MutexLock (bind k f)
  | MutexUnlock k => MutexUnlock (bind k f)
  | LoadPwmValue k => LoadPwmValue (fun x => bind (k x) f)
  | StorePwmValue v k => StorePwmValue v (bind k f)
  | LoadManualMode k => LoadManualMode (fun x => bind (k x) f)
  | StoreManualMode b k => StoreManualMode b (bind k f)
  end.

#[export] Instance prog_ret : MRet prog := @Ret.
#[export] Instance prog_bind : MBind prog := fun A B f p => bind p f.

Definition outb (value port : Z) : prog unit := Outb value port (Ret tt).
Definition inb (port : Z) : prog Z := Inb port Ret.
Definition mutex_lock : prog unit := MutexLock (Ret tt).
Definition mutex_unlock : prog unit := MutexUnlock (Ret tt).
Definition load_pwm_value : prog Z := LoadPwmValue Ret.
Definition store_pwm_value (v : Z) : prog unit := StorePwmValue v (Ret tt).
Definition load_manual_mode : prog bool := LoadManualMode Ret.
Definition store_manual_mode (b : bool) : prog unit := StoreManualMode b (Ret tt).

(** ** EC transport *)

(** [static void ec_write(u16 addr, u8 val)]. *)
Definition ec_write (addr val : Z) : prog unit :=
  outb 0x2E EC_ADDR_PORT;;
  outb 0x11 EC_DATA_PORT;;
  outb 0x2F EC_ADDR_PORT;;
  outb (u8 (Z.shiftr addr 8)) EC_DATA_PORT;;
  outb 0x2E EC_ADDR_PORT;;
  outb 0x10 EC_DATA_PORT;;
  outb 0x2F EC_ADDR_PORT;;
  outb (u8 (Z.land addr 0xFF)) EC_DATA_PORT;;
  outb 0x2E EC_ADDR_PORT;;
  outb 0x12 EC_DATA_PORT;;
  outb 0x2F EC_ADDR_PORT;;
  outb val EC_DATA_PORT.

(** [static u8 ec_read(u16 addr)]. *)
Definition ec_read (addr : Z) : prog Z :=
  outb 0x2E EC_ADDR_PORT;;
  outb 0x11 EC_DATA_PORT;;
  outb 0x2F EC_ADDR_PORT;;
  outb (u8 (Z.shiftr addr 8)) EC_DATA_PORT;;
  outb 0x2E EC_ADDR_PORT;;
  outb 0x10 EC_DATA_PORT;;
  outb 0x2F EC_ADDR_PORT;;
  outb (u8 (Z.land addr 0xFF)) EC_DATA_PORT;;
  outb 0x2E EC_ADDR_PORT;;
  outb 0x12 EC_DATA_PORT;;
  outb 0x2F EC_ADDR_PORT;;
  val ← inb EC_DATA_PORT;
  Ret val.

(** ** Fan controller *)

(** [static int read_rpm(void)].  The two operands of [|] are evaluated left
    to right: the high byte is read first. *)
Definition read_rpm : prog Z :=
  mutex_lock;;
  high ← ec_read REG_RPM_HIGH;
  low ← ec_read REG_RPM_LOW;
  let rpm := u16 (Z.lor (Z.shiftl high 8) low) in
  mutex_unlock;;
  Ret rpm.

(** [static void set_fan_speed(u8 pwm_255)]. *)
Definition set_fan_speed (pwm_255 : Z) : prog unit :=
  let scaled := scale_pwm pwm_255 in
  mutex_lock;;
  ec_write REG_PWM scaled;;
  ec_write REG_MANUAL_ENABLE 1;;
  mutex_unlock;;
  store_pwm_value pwm_255.

(** [static void set_auto_mode(void)]. *)
Definition set_auto_mode : prog unit :=
  mutex_lock;;
  ec_write REG_MANUAL_ENABLE 0;;
  mutex_unlock;;
  store_manual_mode false.

(** ** hwmon callbacks *)

(** [fan_is_visible]: the file mode of an attribute, 0 when it is hidden. *)
Definition fan_is_visible (type : hwmon_sensor_types) (attr : Z) : Z :=
  if hwmon_sensor_types_eqb type hwmon_fan && (attr =? hwmon_fan_input)
  then 292 (* 0444 *)
  else if hwmon_sensor_types_eqb type hwmon_pwm
          && ((attr =? hwmon_pwm_enable) || (attr =? hwmon_pwm_input))
  then 420 (* 0644 *)
  else 0.

(** [fan_read]: the cell behind [long *val] is passed in and handed back next
    to the return code. *)
Definition fan_read (type : hwmon_sensor_types) (attr : Z) (val : Z)
  : prog (Z * Z) :=
  if hwmon_sensor_types_eqb type hwmon_fan && (attr =? hwmon_fan_input) then
    rpm ← read_rpm;
    Ret (0, rpm)
  else if hwmon_sensor_types_eqb type hwmon_pwm then
    if attr =? hwmon_pwm_enable then
      m ← load_manual_mode;
      Ret (0, (if m : bool then 1 else 0))
    else if attr =? hwmon_pwm_input then
      m ← load_manual_mode;
      if m : bool then v ← load_pwm_value; Ret (0, v) else Ret (0, 0)
    else Ret (- EOPNOTSUPP, val)
  else Ret (- EOPNOTSUPP, val).

(** [fan_write]. *)
Definition fan_write (type : hwmon_sensor_types) (attr : Z) (val : Z)
  : prog Z :=
  if negb (hwmon_sensor_types_eqb type hwmon_pwm) then Ret (- EOPNOTSUPP)
  else if attr =? hwmon_pwm_enable then
    if (val <? 0) || (1 <? val) then Ret (- EINVAL)
    else if val =? 1 then
      store_manual_mode true;;
      v ← load_pwm_value;
      set_fan_speed v;;
      Ret 0
    else
      set_auto_mode;;
      Ret 0
  else if attr =? hwmon_pwm_input then
    if (val <? 0) || (255 <? val) then Ret (- EINVAL)
    else
      store_pwm_value (u8 val);;
      m ← load_manual_mode;
      (if m : bool then set_fan_speed (u8 val) else Ret tt);;
      Ret 0
  else Ret (- EOPNOTSUPP).

(** [gpd_remove], the teardown hook of the platform driver. *)
Definition gpd_remove : prog unit :=
  set_auto_mode.

(** ** Sequential execution: the world and the interpreter *)

(** What the hardware and the lock see, in the order it happens. *)
Inductive event : Type :=
| EvOutb (value port : Z)      (* outb(value, port) *)
| EvInb (port value : Z)       (* inb(port) answered value *)
| EvLock                       (* mutex_lock(&ec_lock) *)
| EvUnlock.                    (* mutex_unlock(&ec_lock) *)

(** The global [fan_data] and the history of events. *)
Record world : Type := {
  fan_data : gpd_fan_data;
  trace : list event
}.

Definition log (e : event) (w : world) : world :=
  {| fan_data := fan_data w; trace := trace w ++ [e] |}.

(** The world after more events. *)
Definition after (w : world) (evs : list event) : world :=
  {| fan_data := fan_data w; trace := trace w ++ evs |}.

Definition with_pwm_value (v : Z) (w : world) : world :=
  {| fan_data := {| pwm_value := v; manual_mode := manual_mode (fan_data w) |};
     trace := trace w |}.

Definition with_manual_mode (b : bool) (w : world) : world :=
  {| fan_data := {| pwm_value := pwm_value (fan_data w); manual_mode := b |};
     trace := trace w |}.

(** One action of a program on the world.  [hw] is the device: the value it
    puts on a port when read after a given history; [inb] delivers it as a
    [u8]. *)
Definition inb_value (hw : list event -> Z -> Z) (w : world) (port : Z) : Z :=
  u8 (hw (trace w) port).

Fixpoint run {A : Type} (hw : list event -> Z -> Z) (p : prog A) (w : world)
  : A * world :=
  match p with
  | Ret a => (a, w)
  | Outb v port k => run hw k (log (EvOutb v port) w)
  | Inb port k =>
      let v := inb_value hw w port in
      run hw (k v) (log (EvInb port v) w)
  | MutexLock k => run hw k (log EvLock w)
  | MutexUnlock k => run hw k (log EvUnlock w)
  | LoadPwmValue k => run hw (k (pwm_value (fan_data w))) w
  | StorePwmValue v k => run hw k (with_pwm_value v w)
  | LoadManualMode k => run hw (k (manual_mode (fan_data w))) w
  | StoreManualMode b k => run hw k (with_manual_mode b w)
  end.

(** The world at module load. *)
Definition world_init : world :=
  {| fan_data := fan_data_init; trace := [] |}.

(** A world in manual mode with duty 77 cached, nothing done on the bus. *)
Definition world_manual_77 : world :=
  {| fan_data := {| pwm_value := 77; manual_mode := true |}; trace := [] |}.

(** A device that answers the successive port reads from a script. *)
Definition is_inb (e : event) : bool :=
  match e with EvInb _ _ => true | _ => false end.

Definition scripted (script : list Z) (t : list event) (port : Z) : Z :=
  nth (length (List.filter is_inb t)) script 0.

(** ** Port sequences of the transport *)

(** The eleven port writes that load the EC address pointer. *)
Definition ec_select (addr : Z) : list event :=
  [ EvOutb 0x2E EC_ADDR_PORT; EvOutb 0x11 EC_DATA_PORT;
    EvOutb 0x2F EC_ADDR_PORT; EvOutb (u8 (Z.shiftr addr 8)) EC_DATA_PORT;
    EvOutb 0x2E EC_ADDR_PORT; EvOutb 0x10 EC_DATA_PORT;
    EvOutb 0x2F EC_ADDR_PORT; EvOutb (u8 (Z.land addr 0xFF)) EC_DATA_PORT;
    EvOutb 0x2E EC_ADDR_PORT; EvOutb 0x12 EC_DATA_PORT;
    EvOutb 0x2F EC_ADDR_PORT ].

(** The port accesses of [ec_write(addr, val)]. *)
Definition ec_write_events (addr val : Z) : list event :=
  ec_select addr ++ [EvOutb val EC_DATA_PORT].

(** The port accesses of an [ec_read(addr)] that was answered [val]. *)
Definition ec_read_events (addr val : Z) : list event :=
  ec_select addr ++ [EvInb EC_DATA_PORT val].

(** A complete transport sequence: all port accesses of one register write or
    one register read. *)
Definition transport_seq (s : list event) : Prop :=
  exists addr val, 0 <= addr < 65536 /\
    (s = ec_write_events addr val \/ s = ec_read_events addr val).

(** A port trace made of complete transport sequences of [n] steps each. *)
Definition transport_trace (n : nat) (t : list event) : Prop :=
  exists seqs, t = concat seqs /\
    Forall (fun s => transport_seq s /\ length s = n) seqs.

(** One critical section: the lock is taken, the sequences [seqs] run, the
    lock is released. *)
Definition critical_section (seqs : list (list event)) : list event :=
  EvLock :: concat seqs ++ [EvUnlock].

(** A trace of critical sections, each made of complete transport sequences. *)
Definition locked_trace (t : list event) : Prop :=
  exists secs, t = concat (map critical_section secs) /\
    Forall (Forall transport_seq) secs.

(** The discipline in which every register access has a critical section of
    its own. *)
Definition one_access_per_section (t : list event) : Prop :=
  exists seqs, t = concat (map (fun s => critical_section [s]) seqs) /\
    Forall transport_seq seqs.

Definition is_port_event (e : event) : bool :=
  match e with EvOutb _ _ | EvInb _ _ => true | _ => false end.

(** The hardware port trace: the events without the lock operations. *)
Definition port_events (t : list event) : list event :=
  List.filter is_port_event t.

(** In the events [t] of one operation, every write of 1 to the manual-enable
    register comes directly after the write of [scale_pwm duty] to the PWM
    register. *)
Definition manual_enable_follows_pwm (duty : Z) (t : list event) : Prop :=
  forall pre post,
    t = pre ++ ec_write_events REG_MANUAL_ENABLE 1 ++ post ->
    exists pre', pre = pre' ++ ec_write_events REG_PWM (scale_pwm duty).

(** The events of one call into the driver: none, or one critical section
    holding the two RPM reads, or the write of 0 to manual-enable, or the PWM
    write followed by the write of 1 to manual-enable. *)
Inductive call_shape (duty : Z) (evs : list event) : Prop :=
| shape_quiet : evs = [] -> call_shape duty evs
| shape_rpm (high low : Z) :
    evs = critical_section [ec_read_events REG_RPM_HIGH high;
                            ec_read_events REG_RPM_LOW low] ->
    call_shape duty evs
| shape_auto :
    evs = critical_section [ec_write_events REG_MANUAL_ENABLE 0] ->
    call_shape duty evs
| shape_manual :
    evs = critical_section [ec_write_events REG_PWM (scale_pwm duty);
                            ec_write_events REG_MANUAL_ENABLE 1] ->
    call_shape duty evs.

(** ** A monitor of the bus protocol *)

(** The bus is free, or held with [pos] port accesses of the current
    transport sequence done. *)
Inductive bus : Type :=
| BusFree
| BusHeld (pos : nat).

Definition is_byte (z : Z) : bool := (0 <=? z) && (z <? 256).

(** The port write the protocol allows at position [pos]. *)
Definition expects_outb (pos : nat) (v port : Z) : bool :=
  match pos with
  | 0%nat | 4%nat | 8%nat => (v =? 0x2E) && (port =? EC_ADDR_PORT)
  | 2%nat | 6%nat | 10%nat => (v =? 0x2F) && (port =? EC_ADDR_PORT)
  | 1%nat => (v =? 0x11) && (port =? EC_DATA_PORT)
  | 5%nat => (v =? 0x10) && (port =? EC_DATA_PORT)
  | 9%nat => (v =? 0x12) && (port =? EC_DATA_PORT)
  | 3%nat | 7%nat => (port =? EC_DATA_PORT) && is_byte v
  | 11%nat => port =? EC_DATA_PORT
  | _ => false
  end.

Definition next_pos (pos : nat) : nat :=
  if (pos =? 11)%nat then 0%nat else S pos.

Definition bus_step (b : bus) (e : event) : option bus :=
  match b, e with
  | BusFree, EvLock => Some (BusHeld 0)
  | BusHeld pos, EvUnlock =>
      if (pos =? 0)%nat then Some BusFree else None
  | BusHeld pos, EvOutb v port =>
      if expects_outb pos v port then Some (BusHeld (next_pos pos)) else None
  | BusHeld pos, EvInb port _ =>
      if (pos =? 11)%nat && (port =? EC_DATA_PORT)
      then Some (BusHeld 0) else None
  | _, _ => None
  end.

Fixpoint bus_run (b : bus) (t : list event) : option bus :=
  match t with
  | [] => Some b
  | e :: t' =>
      match bus_step b e with
      | Some b' => bus_run b' t'
      | None => None
      end
  end.

(** ** Concurrent execution: threads interleaved under the mutex *)

(** Calls the hwmon core and the driver core make into the driver. *)
Inductive call : Type :=
| CallFanRead (type : hwmon_sensor_types) (attr val : Z)
| CallFanWrite (type : hwmon_sensor_types) (attr val : Z)
| CallRemove.

Definition call_prog (c : call) : prog unit :=
  match c with
  | CallFanRead type attr val => fan_read type attr val;; Ret tt
  | CallFanWrite type attr val => fan_write type attr val;; Ret tt
  | CallRemove => gpd_remove
  end.

(** A thread makes its calls one after the other. *)
Fixpoint thread_prog (cs : list call) : prog unit :=
  match cs with
  | [] => Ret tt
  | c :: cs' => call_prog c;; thread_prog cs'
  end.

(** The shared world, the owner of [ec_lock] if it is taken, and what is left
    of every thread. *)
Record machine : Type := {
  shared : world;
  ec_lock : option nat;
  threads : list (prog unit)
}.

(** Thread [i] performs its next action; [None] when it cannot: it has
    returned, it does not exist, or it waits for the lock.  Releasing the
    lock frees it whoever the caller is: that only its owner releases it is
    proved of the driver ([safe], [machine_inv]), not built into the
    machine. *)
Definition step (hw : list event -> Z -> Z) (i : nat) (m : machine)
  : option machine :=
  match threads m !! i with
  | None => None
  | Some p =>
      let continue w l k :=
        Some {| shared := w; ec_lock := l; threads := <[i := k]> (threads m) |} in
      match p with
      | Ret _ => None
      | Outb v port k => continue (log (EvOutb v port) (shared m)) (ec_lock m) k
      | Inb port k =>
          let v := inb_value hw (shared m) port in
          continue (log (EvInb port v) (shared m)) (ec_lock m) (k v)
      | MutexLock k =>
          match ec_lock m with
          | None => continue (log EvLock (shared m)) (Some i) k
          | Some _ => None
          end
      | MutexUnlock k => continue (log EvUnlock (shared m)) None k
      | LoadPwmValue k =>
          continue (shared m) (ec_lock m) (k (pwm_value (fan_data (shared m))))
      | StorePwmValue v k => continue (with_pwm_value v (shared m)) (ec_lock m) k
      | LoadManualMode k =>
          continue (shared m) (ec_lock m) (k (manual_mode (fan_data (shared m))))
      | StoreManualMode b k =>
          continue (with_manual_mode b (shared m)) (ec_lock m) k
      end
  end.

(** The machine under a schedule: the scheduled thread steps if it can. *)
Fixpoint exec (hw : list event -> Z -> Z) (sched : list nat) (m : machine)
  : machine :=
  match sched with
  | [] => m
  | i :: rest => exec hw rest (default m (step hw i m))
  end.

(** Threads about to make their calls, nothing done yet. *)
Definition boot (pool : list (list call)) : machine :=
  {| shared := world_init; ec_lock := None; threads := map thread_prog pool |}.

(** Two threads for the examples: one switches to manual, one reads the RPM;
    and a schedule that lets them take turns. *)
Definition pool_two : list (list call) :=
  [ [CallFanWrite hwmon_pwm hwmon_pwm_enable 1];
    [CallFanRead hwmon_fan hwmon_fan_input 0] ].

Definition sched_alternate : list nat :=
  concat (repeat [0; 1]%nat 60).

(** One thread that tears the device down, run to its end. *)
Definition pool_remove : list (list call) :=
  [ [CallRemove] ].

Definition sched_single : list nat :=
  repeat 0%nat 16.

(** Every thread has returned. *)
Definition all_returned (m : machine) : Prop :=
  Forall (fun p => p = Ret tt) (threads m).

(** What a thread may still do when the monitor, as far as this thread is
    concerned, is in state [b]: a thread that does not hold the lock sees
    [BusFree] and must take the lock before it touches a port. *)
Fixpoint safe {A : Type} (b : bus) (p : prog A) : Prop :=
  match p with
  | Ret _ => b = BusFree
  | Outb v port k =>
      match bus_step b (EvOutb v port) with
      | Some b' => safe b' k
      | None => False
      end
  | Inb port k =>
      forall v, match bus_step b (EvInb port v) with
                | Some b' => safe b' (k v)
                | None => False
                end
  | MutexLock k => b = BusFree /\ safe (BusHeld 0) k
  | MutexUnlock k => b = BusHeld 0 /\ safe BusFree k
  | LoadPwmValue k => forall v, safe b (k v)
  | StorePwmValue _ k => safe b k
  | LoadManualMode k => forall v, safe b (k v)
  | StoreManualMode _ k => safe b k
  end.

(** The monitor state a thread sees: the real one if it owns the lock. *)
Definition view (owner : option nat) (b : bus) (j : nat) : bus :=
  match owner with
  | Some i => if (i =? j)%nat then b else BusFree
  | None => BusFree
  end.

(** The owner of the lock when thread 0 runs alone and the monitor is in
    state [b]. *)
Definition solo_lock (b : bus) : option nat :=
  match b with
  | BusFree => None
  | BusHeld _ => Some 0%nat
  end.

(** The machine with a single thread [p]. *)
Definition solo (w : world) (l : option nat) (p : prog unit) : machine :=
  {| shared := w; ec_lock := l; threads := [p] |}.

(** The invariant of the machine: the monitor accepts the history, it is free
    exactly when the lock is, the owner of the lock is one of the threads, and
    every thread is safe from where it stands. *)
Definition machine_inv (m : machine) : Prop :=
  exists b,
    bus_run BusFree (trace (shared m)) = Some b /\
    (ec_lock m = None <-> b = BusFree) /\
    (forall i, ec_lock m = Some i -> is_Some (threads m !! i)) /\
    forall j p, threads m !! j = Some p -> safe (view (ec_lock m) b j) p.

(** ** Further notions used below *)

(** A duty that the scaler maps to the hardware level [h]. *)
Definition level_duty (h : Z) : Z :=
  DIV_ROUND_CLOSEST ((h - 1) * 255) 183.

(** The cached duty fits its [u8] field. *)
Definition duty_in_range (w : world) : Prop :=
  0 <= pwm_value (fan_data w) <= 255.

(** *** Register accesses read back from the port trace *)

(** One access to an EC register, as the transport performs it. *)
Inductive ec_access : Type :=
| EcWrite (addr val : Z)
| EcRead (addr val : Z).

(** The byte an event carries. *)
Definition event_value (e : event) : Z :=
  match e with
  | EvOutb v _ => v
  | EvInb _ v => v
  | EvLock | EvUnlock => 0
  end.

Definition bus_at_start (o : option bus) : bool :=
  match o with
  | Some (BusHeld 0%nat) => true
  | _ => false
  end.

(** Twelve port events that the monitor accepts as one transport sequence,
    read as a register access: the address is the high byte shifted by eight
    or-ed with the low byte, the payload is the byte of the last event. *)
Definition decode_seq (s : list event) : option ec_access :=
  if (length s =? 12)%nat && bus_at_start (bus_run (BusHeld 0) s) then
    let addr := Z.lor (Z.shiftl (event_value (nth 3 s EvLock)) 8)
                      (event_value (nth 7 s EvLock)) in
    match nth 11 s EvLock with
    | EvOutb v _ => Some (EcWrite addr v)
    | EvInb _ v => Some (EcRead addr v)
    | EvLock | EvUnlock => None
    end
  else None.

(** The register accesses of a history: the port events are taken twelve at
    a time, [pending] holding the ones of the current group. *)
Fixpoint accesses_from (pending : list event) (t : list event)
  : list ec_access :=
  match t with
  | [] => []
  | e :: t' =>
      if is_port_event e then
        let pending' := pending ++ [e] in
        if (length pending' =? 12)%nat then
          match decode_seq pending' with
          | Some a => a :: accesses_from [] t'
          | None => accesses_from [] t'
          end
        else accesses_from pending' t'
      else accesses_from pending t'
  end.

Definition accesses (t : list event) : list ec_access :=
  accesses_from [] t.

(** The value last written to the register [addr], if any was. *)
Definition note_write (addr : Z) (cur : option Z) (a : ec_access) : option Z :=
  match a with
  | EcWrite a' v => if a' =? addr then Some v else cur
  | EcRead _ _ => cur
  end.

Definition last_write (addr : Z) (acc : list ec_access) : option Z :=
  fold_left (note_write addr) acc None.

Definition register (addr : Z) (t : list event) : option Z :=
  last_write addr (accesses t).

(** The cached state agrees with what the driver last wrote: in manual mode
    the manual-enable register was last written 1 and the PWM register the
    scaled cached duty; in auto mode the manual-enable register was last
    written 0, or never written. *)
Definition coherent (w : world) : Prop :=
  locked_trace (trace w) /\
  (manual_mode (fan_data w) = true ->
   register REG_MANUAL_ENABLE (trace w) = Some 1 /\
   register REG_PWM (trace w) = Some (scale_pwm (pwm_value (fan_data w)))) /\
  (manual_mode (fan_data w) = false ->
   register REG_MANUAL_ENABLE (trace w) = Some 0 \/
   register REG_MANUAL_ENABLE (trace w) = None).

(** The register accesses the driver is meant to make. *)
Definition allowed_access (a : ec_access) : Prop :=
  match a with
  | EcWrite addr v =>
      (addr = REG_PWM /\ 1 <= v <= PWM_MAX_VAL) \/
      (addr = REG_MANUAL_ENABLE /\ (v = 0 \/ v = 1))
  | EcRead addr _ => addr = REG_RPM_HIGH \/ addr = REG_RPM_LOW
  end.

(** Two writers of the duty, the first switching to manual beforehand; and a
    schedule in which the second writer runs between the register writes of
    the first and the first's store to the cache. *)
Definition pool_race : list (list call) :=
  [ [CallFanWrite hwmon_pwm hwmon_pwm_enable 1;
     CallFanWrite hwmon_pwm hwmon_pwm_input 100];
    [CallFanWrite hwmon_pwm hwmon_pwm_input 200] ].

Definition sched_race : list nat :=
  repeat 0%nat 57 ++ repeat 1%nat 29 ++ [0%nat].

(** Whether a thread has returned can be decided. *)
#[local] Instance returned_dec (p : prog unit) : Decision (p = Ret tt).
Proof.
  destruct p as [[]| | | | | | | |]; [left; reflexivity|..];
    right; discriminate.
Defined.

(** ** Proof automation *)

(** Try every offset at which the sequence [x] could start in a trace of
    known length: [Hx] compares the window at that offset with [x]. *)
Ltac scan_offsets k n Hlen Hx Hpre :=
  lazymatch k with
  | O => cbn in Hlen; lia
  | S ?k' =>
      let m := fresh "m" in
      destruct n as [|m];
      [ vm_compute in Hx;
        first [ congruence
              | exists [EvLock]; rewrite <- Hpre; reflexivity ]
      | scan_offsets k' m Hlen Hx Hpre ]
  end.

(** The monitor consumes the next event of a run that ends with the bus
    free; tests on the event become equations. *)
Ltac monitor_next H :=
  lazymatch type of H with
  | bus_run (BusHeld _) ?t = Some BusFree =>
      let v := fresh "v" in
      let port := fresh "port" in
      let t' := fresh "t" in
      destruct t as [|[v port|port v| |] t'];
      cbn [bus_run bus_step Nat.eqb andb expects_outb next_pos] in H;
      try discriminate H;
      repeat lazymatch type of H with
        | context [?a =? ?b] =>
            destruct (Z.eqb_spec a b); [subst|];
            cbn [andb] in H; try discriminate H
        end
  end.

(** * Properties *)

(** ** The PWM scaler *)

Example scale_pwm_128 : scale_pwm 128 = 93.
Proof. reflexivity. Qed.

Example scale_pwm_1 : scale_pwm 1 = 2.
Proof. reflexivity. Qed.

Example scale_pwm_254 : scale_pwm 254 = 183.
Proof. reflexivity. Qed.

Example scale_reference_128 : scale_reference 128 = 93.
Proof. reflexivity. Qed.

Lemma u8_small (z : Z) : 0 <= z < 256 -> u8 z = z.
Proof. intros H. unfold u8. apply Z.mod_small. exact H. Qed.

Lemma u8_range (z : Z) : 0 <= u8 z < 256.
Proof. unfold u8. apply Z.mod_pos_bound. lia. Qed.

(** The kernel macro on a non-negative dividend and the divisor 255. *)
Lemma DIV_ROUND_CLOSEST_255 (x : Z) :
  0 < x -> DIV_ROUND_CLOSEST x 255 = (x + 127) / 255.
Proof.
  intros Hx. unfold DIV_ROUND_CLOSEST.
  replace (0 <? x) with true by (symmetry; apply Z.ltb_lt; exact Hx).
  change (0 <? 255) with true. cbn [Bool.eqb].
  change (Z.quot 255 2) with 127.
  apply Z.quot_div_nonneg; lia.
Qed.

(** Between the two ends the scaler is one plus a rounded quotient. *)
Lemma scale_pwm_mid (duty : Z) :
  1 <= duty <= 254 -> scale_pwm duty = 1 + (duty * 183 + 127) / 255.
Proof.
  intros H. unfold scale_pwm.
  destruct (Z.leb_spec 255 duty) as [Hge|_]; [lia|].
  destruct (Z.eqb_spec duty 0) as [H0|_]; [lia|].
  change (PWM_MAX_VAL - 1) with 183.
  rewrite DIV_ROUND_CLOSEST_255 by lia.
  apply u8_small.
  assert (0 <= (duty * 183 + 127) / 255 <= 182); [|lia].
  split.
  - apply Z.div_pos; lia.
  - apply Z.lt_succ_r. apply Z.div_lt_upper_bound; lia.
Qed.

(** Rounding half up a quotient by 255: no tie can occur, 255 being odd, and
    adding 127 before the division gives the same integer. *)
Lemma round_half_up_255 (x : Z) :
  0 <= x ->
  round_half_up (inject_Z x / inject_Z 255)%Q = (x + 127) / 255.
Proof.
  intros Hx. unfold round_half_up, Qfloor, Qdiv, Qmult, Qinv, Qplus, inject_Z.
  cbn [Qnum Qden Pos.mul Z.pos_sub].
  change (Z.pos (1 * 255 * 2)) with 510.
  change (Z.pos (1 * 255)) with 255.
  change (Z.pos 2) with 2.
  replace (x * 1 * 2 + 1 * 255) with (2 * x + 255) by lia.
  symmetry. apply Z.div_unique with (r := (2 * x + 255) - 510 * ((x + 127) / 255)); [|lia].
  pose proof (Z.div_mod (x + 127) 255 ltac:(lia)) as Hdm.
  pose proof (Z.mod_pos_bound (x + 127) 255 ltac:(lia)) as Hb.
  left. lia.
Qed.

Lemma scale_pwm_reference (duty : Z) :
  0 <= duty <= 255 -> scale_pwm duty = scale_reference duty.
Proof.
  intros H. unfold scale_reference.
  destruct (Z.eqb_spec duty 255) as [->|H255]; [reflexivity|].
  destruct (Z.eqb_spec duty 0) as [->|H0]; [reflexivity|].
  rewrite scale_pwm_mid by lia.
  rewrite round_half_up_255 by lia. reflexivity.
Qed.

(** C1: the scaler is the reference scaler on 0..255: 255 goes to 184, 0 goes
    to 1, and a duty between 1 and 254 goes to one plus duty * 183 / 255
    rounded to the nearest integer, halves up. *)
Theorem scale_pwm_equals_reference :
  scale_pwm 255 = 184 /\
  scale_pwm 0 = 1 /\
  (forall duty, 1 <= duty <= 254 ->
     scale_pwm duty
     = 1 + round_half_up (inject_Z (duty * 183) / inject_Z 255)%Q) /\
  (forall duty, 0 <= duty <= 255 -> scale_pwm duty = scale_reference duty).
Proof.
  split; [reflexivity|]. split; [reflexivity|]. split.
  - intros duty H. rewrite scale_pwm_mid by lia.
    rewrite round_half_up_255 by lia. reflexivity.
  - exact scale_pwm_reference.
Qed.

Lemma scale_pwm_equals_reference_witness :
  scale_pwm 200 = 1 + round_half_up (inject_Z (200 * 183) / inject_Z 255)%Q /\
  scale_pwm 200 = scale_reference 200.
Proof.
  destruct scale_pwm_equals_reference as (_ & _ & Hmid & Href).
  split; [apply Hmid | apply Href]; lia.
Defined.

(** C6: the scaler never decreases on 0..255, and a duty between 1 and 254 is
    scaled into 1..184. *)
Theorem scale_pwm_monotone_bounded :
  (forall a b, 0 <= a -> a <= b -> b <= 255 -> scale_pwm a <= scale_pwm b) /\
  (forall duty, 1 <= duty <= 254 -> 1 <= scale_pwm duty <= 184).
Proof.
  assert (Hmid : forall d, 1 <= d <= 254 -> 2 <= scale_pwm d <= 183).
  { intros d Hd. rewrite scale_pwm_mid by lia.
    assert (1 <= (d * 183 + 127) / 255 <= 182); [|lia]. split.
    - apply Z.div_le_lower_bound; lia.
    - apply Z.lt_succ_r. apply Z.div_lt_upper_bound; lia. }
  split.
  - intros a b Ha Hab Hb.
    destruct (Z.eq_dec b 255) as [->|Hb255].
    + change (scale_pwm 255) with 184.
      destruct (Z.eq_dec a 255) as [->|Ha255]; [reflexivity|].
      destruct (Z.eq_dec a 0) as [->|Ha0]; [change (scale_pwm 0) with 1; lia|].
      specialize (Hmid a ltac:(lia)). lia.
    + destruct (Z.eq_dec a 0) as [->|Ha0].
      * change (scale_pwm 0) with 1.
        destruct (Z.eq_dec b 0) as [->|Hb0]; [reflexivity|].
        specialize (Hmid b ltac:(lia)). lia.
      * rewrite !scale_pwm_mid by lia.
        apply Z.add_le_mono_l. apply Z.div_le_mono; lia.
  - intros duty H. specialize (Hmid duty H). lia.
Qed.

Lemma scale_pwm_monotone_bounded_witness :
  scale_pwm 100 <= scale_pwm 101 /\ 1 <= scale_pwm 128 <= 184.
Proof.
  destruct scale_pwm_monotone_bounded as [Hmono Hbound].
  split; [apply Hmono | apply Hbound]; lia.
Defined.

(** ** Sequential execution of the driver functions *)

Lemma run_bind {A B : Type} hw (p : prog A) (f : A -> prog B) (w : world) :
  run hw (bind p f) w = let '(a, w') := run hw p w in run hw (f a) w'.
Proof.
  revert w. induction p as [a|v port k IH|port k IH|k IH|k IH|k IH|v k IH|k IH|b k IH];
    intros w; cbn [bind run]; auto.
Qed.

Lemma run_mbind {A B : Type} hw (p : prog A) (f : A -> prog B) (w : world) :
  run hw (p ≫= f) w = let '(a, w') := run hw p w in run hw (f a) w'.
Proof. apply run_bind. Qed.

Lemma after_nil (w : world) : after w [] = w.
Proof. destruct w as [f t]. unfold after. cbn. rewrite app_nil_r. reflexivity. Qed.

Lemma after_after (w : world) (e1 e2 : list event) :
  after (after w e1) e2 = after w (e1 ++ e2).
Proof. unfold after. cbn. rewrite app_assoc. reflexivity. Qed.

Lemma log_after (w : world) (e : event) : log e w = after w [e].
Proof. reflexivity. Qed.

Lemma run_outb hw (v port : Z) (w : world) :
  run hw (outb v port) w = (tt, after w [EvOutb v port]).
Proof. reflexivity. Qed.

(** [ec_write] performs exactly its twelve port writes. *)
Lemma run_ec_write hw (addr val : Z) (w : world) :
  run hw (ec_write addr val) w = (tt, after w (ec_write_events addr val)).
Proof.
  unfold ec_write.
  repeat (rewrite run_mbind, run_outb; cbn beta iota).
  rewrite run_outb, !after_after. reflexivity.
Qed.

(** [ec_read] performs its eleven port writes and one port read, and returns
    the byte the data port answered. *)
Lemma run_ec_read hw (addr : Z) (w : world) :
  let val := inb_value hw (after w (ec_select addr)) EC_DATA_PORT in
  run hw (ec_read addr) w = (val, after w (ec_read_events addr val)).
Proof.
  unfold ec_read.
  repeat (rewrite run_mbind, run_outb; cbn beta iota).
  rewrite !after_after. cbn [app]. rewrite run_mbind. cbn [run inb].
  rewrite log_after, after_after. reflexivity.
Qed.

(** A high byte shifted by eight and a low byte share no bit: or-ing them
    adds them. *)
Lemma lor_shiftl_bytes (high low : Z) :
  0 <= low < 256 -> Z.lor (Z.shiftl high 8) low = high * 256 + low.
Proof.
  intros Hl.
  assert (Hland : Z.land (Z.shiftl high 8) low = 0).
  { apply Z.bits_inj'. intros n Hn.
    rewrite Z.land_spec, Z.bits_0.
    destruct (Z.lt_ge_cases n 8) as [Hlt|Hge].
    - rewrite Z.shiftl_spec_low by exact Hlt. reflexivity.
    - replace low with (low mod 2 ^ 8) by (apply Z.mod_small; exact Hl).
      rewrite Z.mod_pow2_bits_high by lia. apply andb_false_r. }
  pose proof (Z.add_lor_land (Z.shiftl high 8) low) as Hadd.
  rewrite Hland, Z.add_0_r in Hadd. rewrite Hadd.
  rewrite Z.shiftl_mul_pow2 by lia. reflexivity.
Qed.

Lemma u16_rpm (high low : Z) :
  0 <= high < 256 -> 0 <= low < 256 ->
  u16 (Z.lor (Z.shiftl high 8) low) = Z.lor (Z.shiftl high 8) low.
Proof.
  intros Hh Hl. rewrite lor_shiftl_bytes by exact Hl.
  unfold u16. apply Z.mod_small. lia.
Qed.

Lemma inb_value_range hw (w : world) (port : Z) :
  0 <= inb_value hw w port < 256.
Proof. apply u8_range. Qed.

(** [read_rpm] from any world: one critical section with the two register
    reads in it. *)
Lemma run_read_rpm hw (w : world) :
  let high := inb_value hw (after w (EvLock :: ec_select REG_RPM_HIGH))
                EC_DATA_PORT in
  let low := inb_value hw
               (after w (EvLock :: ec_read_events REG_RPM_HIGH high
                           ++ ec_select REG_RPM_LOW))
               EC_DATA_PORT in
  run hw read_rpm w
  = (Z.lor (Z.shiftl high 8) low,
     after w (critical_section [ec_read_events REG_RPM_HIGH high;
                                ec_read_events REG_RPM_LOW low])).
Proof.
  intros high low. unfold read_rpm.
  rewrite run_mbind. cbn [run mutex_lock]. rewrite log_after.
  rewrite run_mbind, run_ec_read. cbn beta iota zeta. rewrite !after_after.
  rewrite run_mbind, run_ec_read. cbn beta iota zeta. rewrite !after_after.
  rewrite run_mbind. cbn [run mutex_unlock]. rewrite log_after, after_after.
  cbn [app]. fold high. rewrite <- !app_assoc. fold low.
  rewrite u16_rpm by apply inb_value_range.
  unfold critical_section. cbn [concat app]. rewrite app_nil_r, <- !app_assoc.
  reflexivity.
Qed.

(** [set_fan_speed] from any world: one critical section with the PWM write
    and then the manual-enable write, and the duty cached afterwards. *)
Lemma run_set_fan_speed hw (pwm_255 : Z) (w : world) :
  run hw (set_fan_speed pwm_255) w
  = (tt, with_pwm_value pwm_255
           (after w (critical_section
                       [ec_write_events REG_PWM (scale_pwm pwm_255);
                        ec_write_events REG_MANUAL_ENABLE 1]))).
Proof.
  unfold set_fan_speed. cbn zeta.
  rewrite run_mbind. cbn [run mutex_lock]. rewrite log_after.
  rewrite run_mbind, run_ec_write. cbn beta iota. rewrite after_after.
  rewrite run_mbind, run_ec_write. cbn beta iota. rewrite after_after.
  rewrite run_mbind. cbn [run mutex_unlock store_pwm_value].
  rewrite log_after, after_after.
  unfold critical_section. cbn [concat app]. rewrite app_nil_r, <- !app_assoc.
  reflexivity.
Qed.

(** [set_auto_mode] from any world: one critical section with the write of 0
    to the manual-enable register, and the mode flag cleared afterwards. *)
Lemma run_set_auto_mode hw (w : world) :
  run hw set_auto_mode w
  = (tt, with_manual_mode false
           (after w (critical_section
                       [ec_write_events REG_MANUAL_ENABLE 0]))).
Proof.
  unfold set_auto_mode.
  rewrite run_mbind. cbn [run mutex_lock]. rewrite log_after.
  rewrite run_mbind, run_ec_write. cbn beta iota. rewrite after_after.
  rewrite run_mbind. cbn [run mutex_unlock store_manual_mode].
  rewrite log_after, after_after.
  unfold critical_section. cbn [concat app]. rewrite app_nil_r.
  reflexivity.
Qed.

(** ** RPM readout *)

(** C7: whatever bytes the two register reads return, first the one of the
    RPM-high register and then the one of the RPM-low register, [read_rpm]
    returns the high byte shifted left by eight, or-ed with the low byte.  The
    call goes to the hardware for both bytes every time, from any world, and
    keeps nothing: the fan state is as before. *)
Theorem read_rpm_combines_bytes hw (w : world) (high low : Z) :
  fst (run hw (ec_read REG_RPM_HIGH) (after w [EvLock])) = high ->
  fst (run hw (ec_read REG_RPM_LOW)
         (after w (EvLock :: ec_read_events REG_RPM_HIGH high))) = low ->
  run hw read_rpm w
  = (Z.lor (Z.shiftl high 8) low,
     after w (critical_section [ec_read_events REG_RPM_HIGH high;
                                ec_read_events REG_RPM_LOW low])).
Proof.
  intros Hhigh Hlow.
  rewrite run_ec_read in Hhigh, Hlow. cbn [fst] in Hhigh, Hlow.
  rewrite after_after in Hhigh, Hlow. cbn [app] in Hhigh.
  rewrite <- app_comm_cons in Hlow.
  pose proof (run_read_rpm hw w) as Hrun. cbn zeta in Hrun.
  rewrite Hhigh in Hrun. rewrite Hlow in Hrun. exact Hrun.
Qed.

Lemma read_rpm_combines_bytes_witness :
  run (scripted [0x01; 0x2C]) read_rpm world_init
  = (300,
     after world_init
       (critical_section [ec_read_events REG_RPM_HIGH 0x01;
                          ec_read_events REG_RPM_LOW 0x2C])).
Proof.
  apply (read_rpm_combines_bytes (scripted [0x01; 0x2C]) world_init 0x01 0x2C);
    reflexivity.
Defined.

(** Two calls in a row read the device twice: the second call returns what
    the device says then, not what the first call saw. *)
Example read_rpm_twice :
  let hw := scripted [0x01; 0x2C; 0x02; 0x10] in
  let '(rpm1, w1) := run hw read_rpm world_init in
  let '(rpm2, w2) := run hw read_rpm w1 in
  rpm1 = 300 /\ rpm2 = 528 /\
  length (List.filter is_inb (trace w1)) = 2%nat /\
  length (List.filter is_inb (trace w2)) = 4%nat.
Proof. cbn. repeat split. Qed.

(** ** The hwmon write callback, case by case *)

Lemma fan_write_other_type hw type attr val (w : world) :
  type <> hwmon_pwm ->
  run hw (fan_write type attr val) w = (- EOPNOTSUPP, w).
Proof. intros H. destruct type; try reflexivity. contradiction. Qed.

Lemma fan_write_enable_invalid hw val (w : world) :
  val < 0 \/ 1 < val ->
  run hw (fan_write hwmon_pwm hwmon_pwm_enable val) w = (- EINVAL, w).
Proof.
  intros H. unfold fan_write. cbn [hwmon_sensor_types_eqb negb].
  change (hwmon_pwm_enable =? hwmon_pwm_enable) with true. cbn match.
  destruct (Z.ltb_spec val 0), (Z.ltb_spec 1 val); try reflexivity. lia.
Qed.

Lemma fan_write_enable_manual hw (w : world) :
  run hw (fan_write hwmon_pwm hwmon_pwm_enable 1) w
  = (0, with_pwm_value (pwm_value (fan_data w))
          (after (with_manual_mode true w)
             (critical_section
                [ec_write_events REG_PWM (scale_pwm (pwm_value (fan_data w)));
                 ec_write_events REG_MANUAL_ENABLE 1]))).
Proof.
  unfold fan_write. cbn [hwmon_sensor_types_eqb negb].
  change (hwmon_pwm_enable =? hwmon_pwm_enable) with true.
  change ((1 <? 0) || (1 <? 1)) with false. change (1 =? 1) with true.
  cbn match.
  rewrite run_mbind. cbn [run store_manual_mode].
  rewrite run_mbind. cbn [run load_pwm_value].
  rewrite run_mbind, run_set_fan_speed. reflexivity.
Qed.

Lemma fan_write_enable_auto hw (w : world) :
  run hw (fan_write hwmon_pwm hwmon_pwm_enable 0) w
  = (0, with_manual_mode false
          (after w (critical_section [ec_write_events REG_MANUAL_ENABLE 0]))).
Proof.
  unfold fan_write. cbn [hwmon_sensor_types_eqb negb].
  change (hwmon_pwm_enable =? hwmon_pwm_enable) with true.
  change ((0 <? 0) || (1 <? 0)) with false. change (0 =? 1) with false.
  cbn match.
  rewrite run_mbind, run_set_auto_mode. reflexivity.
Qed.

Lemma fan_write_input_invalid hw val (w : world) :
  val < 0 \/ 255 < val ->
  run hw (fan_write hwmon_pwm hwmon_pwm_input val) w = (- EINVAL, w).
Proof.
  intros H. unfold fan_write. cbn [hwmon_sensor_types_eqb negb].
  change (hwmon_pwm_input =? hwmon_pwm_enable) with false.
  change (hwmon_pwm_input =? hwmon_pwm_input) with true. cbn match.
  destruct (Z.ltb_spec val 0), (Z.ltb_spec 255 val); try reflexivity. lia.
Qed.

Lemma fan_write_input_valid hw val (w : world) :
  0 <= val <= 255 ->
  run hw (fan_write hwmon_pwm hwmon_pwm_input val) w
  = (0, if manual_mode (fan_data w)
        then with_pwm_value val
               (after (with_pwm_value val w)
                  (critical_section
                     [ec_write_events REG_PWM (scale_pwm val);
                      ec_write_events REG_MANUAL_ENABLE 1]))
        else with_pwm_value val w).
Proof.
  intros H. unfold fan_write. cbn [hwmon_sensor_types_eqb negb].
  change (hwmon_pwm_input =? hwmon_pwm_enable) with false.
  change (hwmon_pwm_input =? hwmon_pwm_input) with true. cbn match.
  destruct (Z.ltb_spec val 0); [lia|]. destruct (Z.ltb_spec 255 val); [lia|].
  cbn [orb]. rewrite u8_small by lia.
  rewrite run_mbind. cbn [run store_pwm_value].
  rewrite run_mbind. cbn [run load_manual_mode with_pwm_value fan_data manual_mode].
  destruct (manual_mode (fan_data w)).
  - rewrite run_mbind, run_set_fan_speed. reflexivity.
  - reflexivity.
Qed.

Lemma fan_write_other_attr hw attr val (w : world) :
  attr <> hwmon_pwm_enable -> attr <> hwmon_pwm_input ->
  run hw (fan_write hwmon_pwm attr val) w = (- EOPNOTSUPP, w).
Proof.
  intros He Hi. unfold fan_write. cbn [hwmon_sensor_types_eqb negb].
  destruct (Z.eqb_spec attr hwmon_pwm_enable); [contradiction|].
  destruct (Z.eqb_spec attr hwmon_pwm_input); [contradiction|].
  reflexivity.
Qed.

(** ** Validation of written values *)

(** C4: a value outside 0..1 written to pwm-enable, and a value outside
    0..255 written to pwm-input, is refused with -EINVAL and changes nothing:
    the world afterwards is the world before, cached duty, mode and event
    history alike, so no port was touched. *)
Theorem fan_write_rejects_invalid hw (w : world) (val : Z) :
  (val < 0 \/ 1 < val ->
   run hw (fan_write hwmon_pwm hwmon_pwm_enable val) w = (- EINVAL, w)) /\
  (val < 0 \/ 255 < val ->
   run hw (fan_write hwmon_pwm hwmon_pwm_input val) w = (- EINVAL, w)).
Proof.
  split; intros H.
  - apply fan_write_enable_invalid, H.
  - apply fan_write_input_invalid, H.
Qed.

Lemma fan_write_rejects_invalid_witness :
  run (scripted []) (fan_write hwmon_pwm hwmon_pwm_enable 256) world_manual_77
  = (-22, world_manual_77) /\
  run (scripted []) (fan_write hwmon_pwm hwmon_pwm_input 256) world_manual_77
  = (-22, world_manual_77).
Proof.
  destruct (fan_write_rejects_invalid (scripted []) world_manual_77 256)
    as [He Hi].
  split; [apply He | apply Hi]; right; lia.
Defined.

(** ** Cached reads *)

Lemma fan_read_pwm_from_cache_aux hw (w : world) (val : Z) :
  run hw (fan_read hwmon_pwm hwmon_pwm_enable val) w
  = ((0, if manual_mode (fan_data w) then 1 else 0), w) /\
  run hw (fan_read hwmon_pwm hwmon_pwm_input val) w
  = ((0, if manual_mode (fan_data w) then pwm_value (fan_data w) else 0), w).
Proof.
  split.
  - reflexivity.
  - unfold fan_read. cbn [hwmon_sensor_types_eqb andb].
    change (hwmon_pwm_input =? hwmon_pwm_enable) with false.
    change (hwmon_pwm_input =? hwmon_pwm_input) with true. cbn match.
    rewrite run_mbind. cbn [run load_manual_mode].
    destruct (manual_mode (fan_data w)); reflexivity.
Qed.

(** C10: reading pwm-enable or pwm-input answers from the cached fan state
    alone, 1 or 0 for the mode and the cached duty or 0 for the duty, whatever
    the device would say; the world afterwards is the world before, so there
    was no port access, no lock operation and no change to the cached state. *)
Theorem fan_read_pwm_from_cache hw (w : world) (val : Z) :
  run hw (fan_read hwmon_pwm hwmon_pwm_enable val) w
  = ((0, if manual_mode (fan_data w) then 1 else 0), w) /\
  run hw (fan_read hwmon_pwm hwmon_pwm_input val) w
  = ((0, if manual_mode (fan_data w) then pwm_value (fan_data w) else 0), w).
Proof. apply fan_read_pwm_from_cache_aux. Qed.

(** ** Teardown *)

(** C5: from any world, in manual or in auto mode, [gpd_remove] takes the
    lock, writes 0 to the manual-enable register, releases the lock and
    clears the mode flag; that register write is the last thing the hardware
    sees of the driver. *)
Theorem gpd_remove_forces_auto hw (w : world) :
  let w' := snd (run hw gpd_remove w) in
  w' = with_manual_mode false
         (after w (critical_section [ec_write_events REG_MANUAL_ENABLE 0])) /\
  manual_mode (fan_data w') = false /\
  port_events (trace w')
  = port_events (trace w) ++ ec_write_events REG_MANUAL_ENABLE 0.
Proof.
  cbn zeta. unfold gpd_remove. rewrite run_set_auto_mode. cbn [snd].
  split; [reflexivity|]. split; [reflexivity|].
  cbn [trace with_manual_mode after]. unfold port_events.
  rewrite List.filter_app. reflexivity.
Qed.

(** ** A duty written in auto mode is kept for later *)

(** C3: in auto mode a duty d of 0..255 written to pwm-input only replaces
    the cached duty: the event history is untouched, so nothing was written
    to the hardware.  Reading pwm-enable and reading pwm-input then both give
    0.  A following write of 1 to pwm-enable writes [scale_pwm d] to the PWM
    register and then 1 to the manual-enable register: d had been kept. *)
Theorem pwm_input_cached_in_auto hw (w : world) (d : Z) :
  manual_mode (fan_data w) = false ->
  0 <= d <= 255 ->
  let w1 := {| fan_data := {| pwm_value := d; manual_mode := false |};
               trace := trace w |} in
  run hw (fan_write hwmon_pwm hwmon_pwm_input d) w = (0, w1) /\
  (forall val,
     run hw (fan_read hwmon_pwm hwmon_pwm_enable val) w1 = ((0, 0), w1)) /\
  (forall val,
     run hw (fan_read hwmon_pwm hwmon_pwm_input val) w1 = ((0, 0), w1)) /\
  run hw (fan_write hwmon_pwm hwmon_pwm_enable 1) w1
  = (0, {| fan_data := {| pwm_value := d; manual_mode := true |};
           trace := trace w
                    ++ critical_section
                         [ec_write_events REG_PWM (scale_pwm d);
                          ec_write_events REG_MANUAL_ENABLE 1] |}).
Proof.
  intros Hauto Hd w1. split; [|split; [|split]].
  - rewrite fan_write_input_valid by exact Hd. rewrite Hauto.
    unfold with_pwm_value. rewrite Hauto. reflexivity.
  - intros val. apply (proj1 (fan_read_pwm_from_cache_aux hw w1 val)).
  - intros val. apply (proj2 (fan_read_pwm_from_cache_aux hw w1 val)).
  - rewrite fan_write_enable_manual. reflexivity.
Qed.

Lemma pwm_input_cached_in_auto_witness :
  run (scripted []) (fan_write hwmon_pwm hwmon_pwm_input 200) world_init
  = (0, {| fan_data := {| pwm_value := 200; manual_mode := false |};
           trace := [] |}) /\
  run (scripted []) (fan_write hwmon_pwm hwmon_pwm_enable 1)
    {| fan_data := {| pwm_value := 200; manual_mode := false |}; trace := [] |}
  = (0, {| fan_data := {| pwm_value := 200; manual_mode := true |};
           trace := critical_section
                      [ec_write_events REG_PWM (scale_pwm 200);
                       ec_write_events REG_MANUAL_ENABLE 1] |}).
Proof.
  destruct (pwm_input_cached_in_auto (scripted []) world_init 200)
    as (Hw & _ & _ & He); [reflexivity | lia |].
  split; [exact Hw | exact He].
Defined.

(** ** What one call puts on the bus *)

Lemma run_fan_read_shape hw type attr val (w : world) :
  exists evs, snd (run hw (fan_read type attr val) w) = after w evs /\
    call_shape (pwm_value (fan_data w)) evs.
Proof.
  unfold fan_read.
  destruct (hwmon_sensor_types_eqb type hwmon_fan && (attr =? hwmon_fan_input)).
  - rewrite run_mbind, run_read_rpm. cbn [run snd].
    eexists. split; [reflexivity|]. eapply shape_rpm. reflexivity.
  - exists []. rewrite after_nil. split; [|apply shape_quiet; reflexivity].
    destruct (hwmon_sensor_types_eqb type hwmon_pwm); [|reflexivity].
    destruct (attr =? hwmon_pwm_enable); [reflexivity|].
    destruct (attr =? hwmon_pwm_input); [|reflexivity].
    rewrite run_mbind. cbn [run load_manual_mode].
    destruct (manual_mode (fan_data w)); reflexivity.
Qed.

Lemma run_fan_write_shape hw type attr val (w : world) :
  exists evs,
    trace (snd (run hw (fan_write type attr val) w)) = trace w ++ evs /\
    call_shape (pwm_value (fan_data (snd (run hw (fan_write type attr val) w))))
      evs.
Proof.
  assert (Hquiet : forall r, run hw (fan_write type attr val) w = (r, w) ->
    exists evs,
      trace (snd (run hw (fan_write type attr val) w)) = trace w ++ evs /\
      call_shape
        (pwm_value (fan_data (snd (run hw (fan_write type attr val) w)))) evs).
  { intros r Hr. rewrite Hr. exists []. rewrite app_nil_r.
    split; [reflexivity | apply shape_quiet; reflexivity]. }
  destruct (decide (type = hwmon_pwm)) as [->|Htype];
    [|eapply Hquiet, fan_write_other_type, Htype].
  destruct (Z.eq_dec attr hwmon_pwm_enable) as [->|Henable].
  { destruct (Z.eq_dec val 1) as [->|Hv1].
    - rewrite fan_write_enable_manual. eexists. split; [reflexivity|].
      apply shape_manual. reflexivity.
    - destruct (Z.eq_dec val 0) as [->|Hv0].
      + rewrite fan_write_enable_auto. eexists. split; [reflexivity|].
        apply shape_auto. reflexivity.
      + eapply Hquiet, fan_write_enable_invalid. lia. }
  destruct (Z.eq_dec attr hwmon_pwm_input) as [->|Hinput];
    [|eapply Hquiet, fan_write_other_attr; assumption].
  destruct (Z_lt_le_dec val 0) as [Hneg|Hpos];
    [eapply Hquiet, fan_write_input_invalid; lia|].
  destruct (Z_lt_le_dec 255 val) as [Hbig|Hsmall];
    [eapply Hquiet, fan_write_input_invalid; lia|].
  rewrite fan_write_input_valid by lia.
  destruct (manual_mode (fan_data w)).
  - eexists. split; [reflexivity|]. apply shape_manual. reflexivity.
  - exists []. cbn [snd with_pwm_value trace]. rewrite app_nil_r.
    split; [reflexivity | apply shape_quiet; reflexivity].
Qed.

Lemma run_call_shape hw (c : call) (w : world) :
  exists evs,
    trace (snd (run hw (call_prog c) w)) = trace w ++ evs /\
    call_shape (pwm_value (fan_data (snd (run hw (call_prog c) w)))) evs.
Proof.
  destruct c as [type attr val|type attr val|]; cbn [call_prog].
  - destruct (run_fan_read_shape hw type attr val w) as (evs & Hw & Hs).
    rewrite run_mbind.
    destruct (run hw (fan_read type attr val) w) as [r w'] eqn:Hr.
    cbn [snd run] in *. subst w'. exists evs. split; [reflexivity|exact Hs].
  - destruct (run_fan_write_shape hw type attr val w) as (evs & Hw & Hs).
    rewrite run_mbind.
    destruct (run hw (fan_write type attr val) w) as [r w'] eqn:Hr.
    cbn [snd run] in *. exists evs. split; assumption.
  - unfold gpd_remove. rewrite run_set_auto_mode. eexists.
    split; [reflexivity|]. apply shape_auto. reflexivity.
Qed.

(** ** Where a port sequence can sit in the events of a call *)

Lemma app_occurrence {A : Type} (t pre x post : list A) :
  t = pre ++ x ++ post ->
  (length pre + length x <= length t)%nat /\
  take (length x) (drop (length pre) t) = x /\
  take (length pre) t = pre.
Proof.
  intros ->. split; [|split].
  - rewrite !length_app. lia.
  - rewrite drop_app_length, take_app_length. reflexivity.
  - rewrite take_app_length. reflexivity.
Qed.

Lemma length_ec_write_events (addr val : Z) :
  length (ec_write_events addr val) = 12%nat.
Proof. reflexivity. Qed.

Lemma transport_seq_length (s : list event) :
  transport_seq s -> length s = 12%nat.
Proof. intros (addr & val & _ & [-> | ->]); reflexivity. Qed.

Lemma call_shape_follows (duty : Z) (evs : list event) :
  call_shape duty evs -> manual_enable_follows_pwm duty evs.
Proof.
  intros Hshape pre post Hsplit.
  apply app_occurrence in Hsplit as (Hlen & Hx & Hpre).
  rewrite length_ec_write_events in Hlen, Hx.
  remember (length pre) as n eqn:Hn. clear Hn.
  destruct Hshape as [->| high low ->| ->| ->];
    set (scaled := scale_pwm duty) in *; clearbody scaled.
  - cbn in Hlen. lia.
  - scan_offsets 15%nat n Hlen Hx Hpre.
  - scan_offsets 3%nat n Hlen Hx Hpre.
  - scan_offsets 15%nat n Hlen Hx Hpre.
Qed.

(** ** Order of the two writes that switch to manual *)

(** C2: [set_fan_speed] writes the scaled duty to the PWM register and only
    then 1 to the manual-enable register, both inside one critical section.
    For every call into the driver, from any world: wherever the events of
    the call contain the write of 1 to manual-enable, the write of
    [scale_pwm] of the duty that the call leaves cached comes directly before
    it. *)
Theorem manual_enable_preceded_by_pwm hw (w : world) :
  (forall duty,
     run hw (set_fan_speed duty) w
     = (tt, with_pwm_value duty
              (after w (critical_section
                          [ec_write_events REG_PWM (scale_pwm duty);
                           ec_write_events REG_MANUAL_ENABLE 1])))) /\
  (forall c : call,
     exists evs,
       trace (snd (run hw (call_prog c) w)) = trace w ++ evs /\
       manual_enable_follows_pwm
         (pwm_value (fan_data (snd (run hw (call_prog c) w)))) evs).
Proof.
  split.
  - intros duty. apply run_set_fan_speed.
  - intros c. destruct (run_call_shape hw c w) as (evs & Ht & Hs).
    exists evs. split; [exact Ht|]. apply call_shape_follows, Hs.
Qed.

Example pwm_input_in_manual_trace :
  trace (snd (run (scripted []) (fan_write hwmon_pwm hwmon_pwm_input 128)
                world_manual_77))
  = EvLock :: ec_write_events REG_PWM 93
      ++ ec_write_events REG_MANUAL_ENABLE 1 ++ [EvUnlock].
Proof. reflexivity. Qed.

(** ** Critical sections *)

Lemma transport_seq_write (addr val : Z) :
  0 <= addr < 65536 -> transport_seq (ec_write_events addr val).
Proof. intros H. exists addr, val. split; [exact H | left; reflexivity]. Qed.

Lemma transport_seq_read (addr val : Z) :
  0 <= addr < 65536 -> transport_seq (ec_read_events addr val).
Proof. intros H. exists addr, val. split; [exact H | right; reflexivity]. Qed.

Lemma locked_trace_nil : locked_trace [].
Proof. exists []. split; [reflexivity | constructor]. Qed.

Lemma locked_trace_section (seqs : list (list event)) :
  Forall transport_seq seqs -> locked_trace (critical_section seqs).
Proof.
  intros H. exists [seqs]. split.
  - cbn [map concat]. rewrite app_nil_r. reflexivity.
  - constructor; [exact H | constructor].
Qed.

Lemma locked_trace_app (t1 t2 : list event) :
  locked_trace t1 -> locked_trace t2 -> locked_trace (t1 ++ t2).
Proof.
  intros (s1 & -> & H1) (s2 & -> & H2). exists (s1 ++ s2). split.
  - rewrite map_app, concat_app. reflexivity.
  - apply Forall_app. split; assumption.
Qed.

Lemma call_shape_locked (duty : Z) (evs : list event) :
  call_shape duty evs -> locked_trace evs.
Proof.
  intros [->| high low ->| ->| ->].
  - apply locked_trace_nil.
  - apply locked_trace_section.
    repeat constructor; apply transport_seq_read; vm_compute; split; congruence.
  - apply locked_trace_section.
    repeat constructor; apply transport_seq_write; vm_compute; split; congruence.
  - apply locked_trace_section.
    repeat constructor; apply transport_seq_write; vm_compute; split; congruence.
Qed.

Lemma one_access_per_section_length (seqs : list (list event)) :
  Forall transport_seq seqs ->
  length (concat (map (fun s => critical_section [s]) seqs))
  = (14 * length seqs)%nat.
Proof.
  induction 1 as [|s seqs Hs _ IH]; [reflexivity|].
  cbn [map concat]. rewrite length_app, IH.
  unfold critical_section. cbn [concat length]. rewrite !length_app.
  rewrite (transport_seq_length s Hs). cbn [length]. lia.
Qed.

(** C9, as stated, fails: the events of [read_rpm] are not a succession of
    critical sections with one register access each. *)
Lemma read_rpm_not_one_access_per_section :
  ~ (exists evs,
       trace (snd (run (scripted [0x01; 0x2C]) read_rpm world_init))
       = trace world_init ++ evs /\
       one_access_per_section evs).
Proof.
  intros (evs & Ht & seqs & Hevs & Hall).
  rewrite run_read_rpm in Ht. cbn [snd trace after world_init app] in Ht.
  apply (f_equal (@length event)) in Ht.
  rewrite Hevs, one_access_per_section_length in Ht by exact Hall.
  cbn in Ht. lia.
Qed.

(** C9, amended: [read_rpm] takes the lock once, reads the RPM-high register
    and then the RPM-low register, and releases the lock once: both register
    reads are in the same critical section.  [set_fan_speed] likewise takes
    the lock once, writes the PWM register and then the manual-enable
    register, and releases the lock once: both register writes are in the
    same critical section.  The events of every call into the driver are
    critical sections made of complete register accesses, so no port is
    touched without the lock. *)
Theorem read_rpm_one_critical_section hw (w : world) :
  (exists high low,
     snd (run hw read_rpm w)
     = after w (critical_section [ec_read_events REG_RPM_HIGH high;
                                  ec_read_events REG_RPM_LOW low])) /\
  (forall duty,
     snd (run hw (set_fan_speed duty) w)
     = with_pwm_value duty
         (after w (critical_section
                     [ec_write_events REG_PWM (scale_pwm duty);
                      ec_write_events REG_MANUAL_ENABLE 1]))) /\
  (forall c : call,
     exists evs,
       trace (snd (run hw (call_prog c) w)) = trace w ++ evs /\
       locked_trace evs).
Proof.
  split; [|split].
  - eexists _, _. rewrite run_read_rpm. reflexivity.
  - intros duty. rewrite run_set_fan_speed. reflexivity.
  - intros c. destruct (run_call_shape hw c w) as (evs & Ht & Hs).
    exists evs. split; [exact Ht|]. eapply call_shape_locked, Hs.
Qed.

(** ** Every call keeps to the lock discipline *)

Lemma safe_bind {A B : Type} (p : prog A) (f : A -> prog B) (b : bus) :
  safe b p -> (forall a, safe BusFree (f a)) -> safe b (bind p f).
Proof.
  revert b.
  induction p as [a|v port k IH|port k IH|k IH|k IH|k IH|v k IH|k IH|v k IH];
    intros b Hp Hf; cbn [bind safe] in *.
  - subst b. apply Hf.
  - destruct (bus_step b (EvOutb v port)); [apply IH; assumption | contradiction].
  - intros x. specialize (Hp x).
    destruct (bus_step b (EvInb port x)); [apply IH; assumption | contradiction].
  - destruct Hp as [Hb Hk]. split; [exact Hb | apply IH; assumption].
  - destruct Hp as [Hb Hk]. split; [exact Hb | apply IH; assumption].
  - intros x. apply IH; [apply Hp | exact Hf].
  - apply IH; assumption.
  - intros x. apply IH; [apply Hp | exact Hf].
  - apply IH; assumption.
Qed.

Lemma safe_mbind {A B : Type} (p : prog A) (f : A -> prog B) (b : bus) :
  safe b p -> (forall a, safe BusFree (f a)) -> safe b (p ≫= f).
Proof. apply safe_bind. Qed.

Lemma safe_read_rpm : safe BusFree read_rpm.
Proof. vm_compute. split; [reflexivity|]. intros high low. split; reflexivity. Qed.

Lemma safe_set_fan_speed (pwm_255 : Z) : safe BusFree (set_fan_speed pwm_255).
Proof. vm_compute. repeat split. Qed.

Lemma safe_set_auto_mode : safe BusFree set_auto_mode.
Proof. vm_compute. repeat split. Qed.

Lemma safe_fan_read type attr val : safe BusFree (fan_read type attr val).
Proof.
  unfold fan_read.
  destruct (hwmon_sensor_types_eqb type hwmon_fan && (attr =? hwmon_fan_input)).
  - apply safe_mbind; [apply safe_read_rpm | reflexivity].
  - destruct (hwmon_sensor_types_eqb type hwmon_pwm); [|reflexivity].
    destruct (attr =? hwmon_pwm_enable); [intros m; reflexivity|].
    destruct (attr =? hwmon_pwm_input); [|reflexivity].
    intros [|]; [intros v|]; reflexivity.
Qed.

Lemma safe_fan_write type attr val : safe BusFree (fan_write type attr val).
Proof.
  unfold fan_write.
  destruct (negb (hwmon_sensor_types_eqb type hwmon_pwm)); [reflexivity|].
  destruct (attr =? hwmon_pwm_enable).
  - destruct ((val <? 0) || (1 <? val)); [reflexivity|].
    destruct (val =? 1).
    + apply safe_mbind; [reflexivity|]. intros _.
      apply safe_mbind; [intros v; reflexivity|]. intros v.
      apply safe_mbind; [apply safe_set_fan_speed | reflexivity].
    + apply safe_mbind; [apply safe_set_auto_mode | reflexivity].
  - destruct (attr =? hwmon_pwm_input); [|reflexivity].
    destruct ((val <? 0) || (255 <? val)); [reflexivity|].
    apply safe_mbind; [reflexivity|]. intros _.
    apply safe_mbind; [intros m; reflexivity|]. intros [|].
    + apply safe_mbind; [apply safe_set_fan_speed | reflexivity].
    + reflexivity.
Qed.

Lemma safe_call_prog (c : call) : safe BusFree (call_prog c).
Proof.
  destruct c as [type attr val|type attr val|]; cbn [call_prog].
  - apply safe_mbind; [apply safe_fan_read | reflexivity].
  - apply safe_mbind; [apply safe_fan_write | reflexivity].
  - apply safe_set_auto_mode.
Qed.

Lemma safe_thread_prog (cs : list call) : safe BusFree (thread_prog cs).
Proof.
  induction cs as [|c cs IH]; cbn [thread_prog]; [reflexivity|].
  apply safe_mbind; [apply safe_call_prog | intros _; exact IH].
Qed.

(** ** The invariant of the interleaving machine *)

Lemma bus_run_app (b : bus) (t1 t2 : list event) :
  bus_run b (t1 ++ t2)
  = match bus_run b t1 with Some b' => bus_run b' t2 | None => None end.
Proof.
  revert b. induction t1 as [|e t1 IH]; intros b; cbn [app bus_run].
  - reflexivity.
  - destruct (bus_step b e); [apply IH | reflexivity].
Qed.

Lemma bus_run_snoc (b b' : bus) (t : list event) (e : event) :
  bus_run b t = Some b' -> bus_run b (t ++ [e]) = bus_step b' e.
Proof.
  intros H. rewrite bus_run_app, H. cbn [bus_run].
  destruct (bus_step b' e); reflexivity.
Qed.

Lemma view_self (i : nat) (b : bus) : view (Some i) b i = b.
Proof. unfold view. rewrite Nat.eqb_refl. reflexivity. Qed.

Lemma view_other (i j : nat) (b : bus) : i <> j -> view (Some i) b j = BusFree.
Proof.
  intros H. unfold view. destruct (Nat.eqb_spec i j); [contradiction|reflexivity].
Qed.

Lemma view_cases (owner : option nat) (b : bus) (j : nat) :
  (owner = Some j /\ view owner b j = b) \/
  (owner <> Some j /\ view owner b j = BusFree).
Proof.
  destruct owner as [i|]; [|right; split; [discriminate|reflexivity]].
  destruct (Nat.eq_dec i j) as [->|Hne].
  - left. split; [reflexivity | apply view_self].
  - right. split; [congruence | apply view_other, Hne].
Qed.

(** A port access leaves the bus held. *)
Lemma bus_step_port_held (b b' : bus) (e : event) :
  is_port_event e = true -> bus_step b e = Some b' ->
  exists pos pos', b = BusHeld pos /\ b' = BusHeld pos'.
Proof.
  intros He Hs. destruct b as [|pos]; [destruct e; discriminate|].
  exists pos. destruct e as [v port|port v| |]; try discriminate He;
    cbn [bus_step] in Hs.
  - destruct (expects_outb pos v port); [|discriminate].
    injection Hs as <-. eexists. split; reflexivity.
  - destruct ((pos =? 11)%nat && (port =? EC_DATA_PORT)); [|discriminate].
    injection Hs as <-. eexists. split; reflexivity.
Qed.

(** The invariant carries over to the machine in which thread [i] has moved
    on to [k], provided the new history, lock owner and thread fit. *)
Lemma machine_inv_update (m : machine) (i : nat) (p k : prog unit)
      (w' : world) (l' : option nat) (b' : bus) :
  threads m !! i = Some p ->
  bus_run BusFree (trace w') = Some b' ->
  (l' = None <-> b' = BusFree) ->
  (forall o, l' = Some o -> is_Some (threads m !! o)) ->
  safe (view l' b' i) k ->
  (forall j q, j <> i -> threads m !! j = Some q -> safe (view l' b' j) q) ->
  machine_inv {| shared := w'; ec_lock := l';
                 threads := <[i := k]> (threads m) |}.
Proof.
  intros Hp Hrun Hlock Howner Hk Hrest.
  exists b'. cbn [shared ec_lock threads].
  split; [exact Hrun|]. split; [exact Hlock|]. split.
  - intros o Ho. destruct (Howner o Ho) as [q Hq].
    destruct (Nat.eq_dec o i) as [->|Hne].
    + exists k. apply list_lookup_insert_eq. eapply lookup_lt_Some, Hp.
    + exists q. rewrite list_lookup_insert_ne by congruence. exact Hq.
  - intros j q Hq. destruct (Nat.eq_dec j i) as [->|Hne].
    + rewrite list_lookup_insert_eq in Hq by (eapply lookup_lt_Some, Hp).
      injection Hq as <-. exact Hk.
    + rewrite list_lookup_insert_ne in Hq by congruence.
      apply Hrest; assumption.
Qed.

Lemma step_port_inv (m : machine) (i : nat) (p k : prog unit) (e : event)
      (b : bus) :
  is_port_event e = true ->
  threads m !! i = Some p ->
  bus_run BusFree (trace (shared m)) = Some b ->
  (ec_lock m = None <-> b = BusFree) ->
  (forall o, ec_lock m = Some o -> is_Some (threads m !! o)) ->
  (forall j q, threads m !! j = Some q -> safe (view (ec_lock m) b j) q) ->
  match bus_step (view (ec_lock m) b i) e with
  | Some b' => safe b' k
  | None => False
  end ->
  machine_inv {| shared := log e (shared m); ec_lock := ec_lock m;
                 threads := <[i := k]> (threads m) |}.
Proof.
  intros He Hp Hrun Hlock Howner Hsafe Hk.
  destruct (bus_step (view (ec_lock m) b i) e) as [b'|] eqn:Hstep;
    [|contradiction].
  destruct (bus_step_port_held _ _ _ He Hstep) as (pos & pos' & Hv & ->).
  destruct (view_cases (ec_lock m) b i) as [[Hown Hview]|[_ Hview]];
    [|congruence].
  rewrite Hview in Hstep, Hv. subst b.
  apply (machine_inv_update m i p k _ _ (BusHeld pos')); try assumption.
  - cbn [log trace]. erewrite bus_run_snoc by exact Hrun. exact Hstep.
  - rewrite Hown. split; discriminate.
  - rewrite Hown, view_self. exact Hk.
  - intros j q Hne Hq. rewrite Hown, view_other by congruence.
    specialize (Hsafe j q Hq). rewrite Hown, view_other in Hsafe by congruence.
    exact Hsafe.
Qed.

Lemma step_quiet_inv (m : machine) (i : nat) (p k : prog unit) (w' : world)
      (b : bus) :
  trace w' = trace (shared m) ->
  threads m !! i = Some p ->
  bus_run BusFree (trace (shared m)) = Some b ->
  (ec_lock m = None <-> b = BusFree) ->
  (forall o, ec_lock m = Some o -> is_Some (threads m !! o)) ->
  (forall j q, threads m !! j = Some q -> safe (view (ec_lock m) b j) q) ->
  safe (view (ec_lock m) b i) k ->
  machine_inv {| shared := w'; ec_lock := ec_lock m;
                 threads := <[i := k]> (threads m) |}.
Proof.
  intros Ht Hp Hrun Hlock Howner Hsafe Hk.
  apply (machine_inv_update m i p k _ _ b); try assumption.
  - rewrite Ht. exact Hrun.
  - intros j q _ Hq. apply Hsafe, Hq.
Qed.

(** One step of any thread keeps the invariant. *)
Lemma step_inv hw (i : nat) (m m' : machine) :
  machine_inv m -> step hw i m = Some m' -> machine_inv m'.
Proof.
  intros (b & Hrun & Hlock & Howner & Hsafe) Hstep.
  unfold step in Hstep.
  destruct (threads m !! i) as [p|] eqn:Hp; [|discriminate].
  pose proof (Hsafe i p Hp) as Hsp.
  destruct p as [a|v port k|port k|k|k|k|v k|k|v k]; cbn [safe] in Hsp.
  - discriminate.
  - injection Hstep as <-.
    eapply step_port_inv; try eassumption. reflexivity.
  - injection Hstep as <-.
    eapply step_port_inv; try eassumption; [reflexivity | apply Hsp].
  - destruct (ec_lock m) as [o|] eqn:Hl; [discriminate|].
    injection Hstep as <-. destruct Hsp as [_ Hk].
    assert (Hb : b = BusFree) by (apply Hlock; reflexivity). subst b.
    apply (machine_inv_update m i (MutexLock k) k _ _ (BusHeld 0));
      try assumption.
    + cbn [log trace]. erewrite bus_run_snoc by exact Hrun. reflexivity.
    + split; discriminate.
    + intros o Ho. injection Ho as <-. eexists. exact Hp.
    + rewrite view_self. exact Hk.
    + intros j q Hne Hq. rewrite view_other by congruence.
      apply (Hsafe j q Hq).
  - injection Hstep as <-. destruct Hsp as [Hv Hk].
    destruct (view_cases (ec_lock m) b i) as [[Hown Hview]|[_ Hview]];
      [|congruence].
    rewrite Hview in Hv. subst b.
    apply (machine_inv_update m i (MutexUnlock k) k _ _ BusFree);
      try assumption.
    + cbn [log trace]. erewrite bus_run_snoc by exact Hrun. reflexivity.
    + split; reflexivity.
    + discriminate.
    + intros j q Hne Hq. specialize (Hsafe j q Hq).
      rewrite Hown, view_other in Hsafe by congruence. exact Hsafe.
  - injection Hstep as <-.
    eapply step_quiet_inv; try eassumption; [reflexivity | apply Hsp].
  - injection Hstep as <-.
    eapply step_quiet_inv; try eassumption. reflexivity.
  - injection Hstep as <-.
    eapply step_quiet_inv; try eassumption; [reflexivity | apply Hsp].
  - injection Hstep as <-.
    eapply step_quiet_inv; try eassumption. reflexivity.
Qed.

Lemma exec_inv hw (sched : list nat) (m : machine) :
  machine_inv m -> machine_inv (exec hw sched m).
Proof.
  revert m. induction sched as [|i sched IH]; intros m Hm; cbn [exec].
  - exact Hm.
  - apply IH. destruct (step hw i m) as [m'|] eqn:Hstep; cbn [default].
    + eapply step_inv; eassumption.
    + exact Hm.
Qed.

Lemma boot_inv (pool : list (list call)) : machine_inv (boot pool).
Proof.
  exists BusFree. cbn [boot shared ec_lock threads world_init trace].
  split; [reflexivity|]. split; [split; reflexivity|]. split; [discriminate|].
  intros j p Hp. cbn [view].
  apply list_lookup_fmap_Some in Hp as (cs & -> & _).
  apply safe_thread_prog.
Qed.

(** ** One thread alone *)

Lemma exec_solo_step hw (n : nat) (w w' : world) (l l' : option nat)
      (p k : prog unit) :
  step hw 0 (solo w l p) = Some (solo w' l' k) ->
  exec hw (repeat 0%nat (S n)) (solo w l p)
  = exec hw (repeat 0%nat n) (solo w' l' k).
Proof. intros H. cbn [repeat exec]. rewrite H. reflexivity. Qed.

(** A thread that keeps to the lock discipline and runs alone goes through to
    its end, and the machine leaves the world that the sequential interpreter
    computes. *)
Lemma exec_alone_is_run hw (p : prog unit) (b : bus) (w : world) :
  safe b p ->
  exists n,
    exec hw (repeat 0%nat n) (solo w (solo_lock b) p)
    = solo (snd (run hw p w)) None (Ret tt).
Proof.
  revert b w.
  induction p as [a|v port k IH|port k IH|k IH|k IH|k IH|v k IH|k IH|v k IH];
    intros b w Hp; cbn [safe run] in *.
  - subst b. exists 0%nat. destruct a. reflexivity.
  - destruct (bus_step b (EvOutb v port)) as [b'|] eqn:Hs; [|contradiction].
    destruct (bus_step_port_held b b' (EvOutb v port) eq_refl Hs)
      as (pos & pos' & -> & ->).
    destruct (IH _ (log (EvOutb v port) w) Hp) as [n Hn].
    exists (S n). rewrite <- Hn. apply exec_solo_step. reflexivity.
  - specialize (Hp (inb_value hw w port)).
    destruct (bus_step b (EvInb port (inb_value hw w port))) as [b'|] eqn:Hs;
      [|contradiction].
    destruct (bus_step_port_held b b' (EvInb port (inb_value hw w port))
                eq_refl Hs) as (pos & pos' & -> & ->).
    destruct (IH _ _ (log (EvInb port (inb_value hw w port)) w) Hp) as [n Hn].
    exists (S n). rewrite <- Hn. apply exec_solo_step. reflexivity.
  - destruct Hp as [-> Hk].
    destruct (IH _ (log EvLock w) Hk) as [n Hn].
    exists (S n). rewrite <- Hn. apply exec_solo_step. reflexivity.
  - destruct Hp as [-> Hk].
    destruct (IH _ (log EvUnlock w) Hk) as [n Hn].
    exists (S n). rewrite <- Hn. apply exec_solo_step. reflexivity.
  - destruct (IH _ _ w (Hp (pwm_value (fan_data w)))) as [n Hn].
    exists (S n). rewrite <- Hn. apply exec_solo_step. reflexivity.
  - destruct (IH _ (with_pwm_value v w) Hp) as [n Hn].
    exists (S n). rewrite <- Hn. apply exec_solo_step. reflexivity.
  - destruct (IH _ _ w (Hp (manual_mode (fan_data w)))) as [n Hn].
    exists (S n). rewrite <- Hn. apply exec_solo_step. reflexivity.
  - destruct (IH _ (with_manual_mode v w) Hp) as [n Hn].
    exists (S n). rewrite <- Hn. apply exec_solo_step. reflexivity.
Qed.

(** Any sequence of calls made by one thread alone: the machine and the
    sequential interpreter agree. *)
Lemma exec_thread_alone hw (cs : list call) (w : world) :
  exists n,
    exec hw (repeat 0%nat n) (solo w None (thread_prog cs))
    = solo (snd (run hw (thread_prog cs) w)) None (Ret tt).
Proof. apply (exec_alone_is_run hw _ BusFree), safe_thread_prog. Qed.

(** ** What the monitor accepts *)

Lemma addr_of_bytes (hi lo : Z) :
  0 <= hi < 256 -> 0 <= lo < 256 ->
  0 <= hi * 256 + lo < 65536 /\
  u8 (Z.shiftr (hi * 256 + lo) 8) = hi /\
  u8 (Z.land (hi * 256 + lo) 0xFF) = lo.
Proof.
  intros Hh Hl. split; [lia|]. split.
  - rewrite Z.shiftr_div_pow2 by lia. change (2 ^ 8) with 256.
    replace ((hi * 256 + lo) / 256) with hi
      by (apply Z.div_unique with (r := lo); lia).
    apply u8_small, Hh.
  - change 0xFF with (Z.ones 8). rewrite Z.land_ones by lia.
    change (2 ^ 8) with 256.
    replace ((hi * 256 + lo) mod 256) with lo
      by (apply Z.mod_unique with (q := hi); lia).
    apply u8_small, Hl.
Qed.

Lemma is_byte_range (z : Z) : is_byte z = true -> 0 <= z < 256.
Proof. unfold is_byte. intros H. apply andb_prop in H as [H1 H2]. lia. Qed.

(** From the start of a sequence, a run that ends with the bus free either
    releases the lock at once or goes through one complete sequence first. *)
Lemma bus_run_held_free (t : list event) :
  bus_run (BusHeld 0) t = Some BusFree ->
  (exists rest, t = EvUnlock :: rest /\ bus_run BusFree rest = Some BusFree) \/
  (exists s rest, t = s ++ rest /\ transport_seq s /\
     bus_run (BusHeld 0) rest = Some BusFree).
Proof.
  intros H. monitor_next H; [|left; eexists; split; [reflexivity|exact H]].
  right. do 2 monitor_next H.
  monitor_next H. destruct (is_byte v) eqn:Hhi; [|discriminate H].
  cbn [andb] in H. do 3 monitor_next H.
  monitor_next H. destruct (is_byte v0) eqn:Hlo; [|discriminate H].
  cbn [andb] in H. do 3 monitor_next H.
  apply is_byte_range in Hhi, Hlo.
  destruct (addr_of_bytes v v0 Hhi Hlo) as (Haddr & Hb1 & Hb2).
  monitor_next H.
  - exists (ec_write_events (v * 256 + v0) v1), t. split; [|split].
    + unfold ec_write_events, ec_select. rewrite Hb1, Hb2. reflexivity.
    + apply transport_seq_write, Haddr.
    + exact H.
  - exists (ec_read_events (v * 256 + v0) v1), t. split; [|split].
    + unfold ec_read_events, ec_select. rewrite Hb1, Hb2. reflexivity.
    + apply transport_seq_read, Haddr.
    + exact H.
Qed.

(** A history after which the monitor is back to a free bus is a succession
    of critical sections made of complete transport sequences. *)
Lemma bus_run_locked_trace (n : nat) (t : list event) :
  (length t <= n)%nat ->
  (bus_run BusFree t = Some BusFree -> locked_trace t) /\
  (bus_run (BusHeld 0) t = Some BusFree ->
   exists seqs rest, t = concat seqs ++ EvUnlock :: rest /\
     Forall transport_seq seqs /\ locked_trace rest).
Proof.
  revert t. induction n as [|n IH]; intros t Hlen.
  - destruct t; [|cbn in Hlen; lia]. split.
    + intros _. apply locked_trace_nil.
    + discriminate.
  - split.
    + destruct t as [|e t]; [intros _; apply locked_trace_nil|].
      cbn [bus_run]. destruct e; try discriminate. cbn [bus_step]. intros H.
      cbn [length] in Hlen.
      destruct (proj2 (IH t ltac:(lia)) H) as (seqs & rest & -> & Hseqs & Hrest).
      change (EvLock :: concat seqs ++ EvUnlock :: rest)
        with (EvLock :: concat seqs ++ [EvUnlock] ++ rest).
      rewrite app_assoc, app_comm_cons.
      apply locked_trace_app; [apply locked_trace_section, Hseqs | exact Hrest].
    + intros H.
      destruct (bus_run_held_free t H)
        as [(rest & -> & Hfree) | (s & rest & -> & Hs & Hheld)].
      * exists [], rest. cbn [length] in Hlen. split; [reflexivity|].
        split; [constructor|]. apply (proj1 (IH rest ltac:(lia))), Hfree.
      * rewrite length_app, (transport_seq_length s Hs) in Hlen.
        destruct (proj2 (IH rest ltac:(lia)) Hheld)
          as (seqs & rest' & -> & Hseqs & Hrest').
        exists (s :: seqs), rest'. cbn [concat]. rewrite <- app_assoc.
        split; [reflexivity|]. split; [constructor; assumption | exact Hrest'].
Qed.

Lemma port_events_app (t1 t2 : list event) :
  port_events (t1 ++ t2) = port_events t1 ++ port_events t2.
Proof. apply List.filter_app. Qed.

Lemma port_events_transport_seq (s : list event) :
  transport_seq s -> port_events s = s.
Proof. intros (addr & val & _ & [-> | ->]); reflexivity. Qed.

Lemma port_events_sequences (seqs : list (list event)) :
  Forall transport_seq seqs -> port_events (concat seqs) = concat seqs.
Proof.
  induction 1 as [|s seqs Hs _ IH]; [reflexivity|].
  cbn [concat]. rewrite port_events_app, IH, port_events_transport_seq by exact Hs.
  reflexivity.
Qed.

(** Without the lock operations, a trace of critical sections is a
    concatenation of complete twelve-step sequences. *)
Lemma locked_trace_port_events (t : list event) :
  locked_trace t -> transport_trace 12 (port_events t).
Proof.
  intros (secs & -> & Hsecs). exists (concat secs). split.
  - induction Hsecs as [|seqs secs Hseqs _ IH]; [reflexivity|].
    cbn [map concat]. rewrite port_events_app, IH. unfold critical_section.
    change (EvLock :: concat seqs ++ [EvUnlock])
      with ([EvLock] ++ concat seqs ++ [EvUnlock]).
    rewrite !port_events_app, port_events_sequences by exact Hseqs.
    cbn [port_events List.filter is_port_event app]. rewrite app_nil_r.
    rewrite concat_app. reflexivity.
  - induction Hsecs as [|seqs secs Hseqs _ IH]; [constructor|].
    cbn [concat]. apply Forall_app. split; [|exact IH].
    eapply Forall_impl; [exact Hseqs|].
    intros s Hs. split; [exact Hs | apply transport_seq_length, Hs].
Qed.

(** ** Concurrent callers *)

(** C8, as stated, fails on the step count: the port trace of a single
    teardown, run alone to its end, is not made of eleven-step sequences. *)
Lemma port_trace_not_eleven_steps :
  ec_lock (exec (scripted []) sched_single (boot pool_remove)) = None /\
  ~ transport_trace 11
      (port_events
         (trace (shared (exec (scripted []) sched_single (boot pool_remove))))).
Proof.
  split; [vm_compute; reflexivity|].
  intros (seqs & Heq & Hall).
  destruct Hall as [|s seqs [Hs Hlen] _]; [vm_compute in Heq; discriminate Heq|].
  rewrite (transport_seq_length s Hs) in Hlen. discriminate Hlen.
Qed.

(** C8, amended: whatever threads call into the driver, whatever calls they
    make and however they are scheduled, the monitor of the bus protocol
    accepts the history at every moment.  Whenever the lock is free the
    history is a succession of critical sections made of complete transport
    sequences, so the port trace is a concatenation of complete twelve-step
    sequences, one per register read or write, none overlapping another; and
    once every thread has returned the lock is free. *)
Theorem transport_sequences_never_interleave
        hw (pool : list (list call)) (sched : list nat) :
  let m := exec hw sched (boot pool) in
  is_Some (bus_run BusFree (trace (shared m))) /\
  (ec_lock m = None ->
   locked_trace (trace (shared m)) /\
   transport_trace 12 (port_events (trace (shared m)))) /\
  (all_returned m -> ec_lock m = None).
Proof.
  intros m.
  destruct (exec_inv hw sched (boot pool) (boot_inv pool))
    as (b & Hrun & Hlock & Howner & Hsafe).
  fold m in Hrun, Hlock, Howner, Hsafe.
  split; [exists b; exact Hrun|]. split.
  - intros Hfree. apply Hlock in Hfree. subst b.
    assert (Hlocked : locked_trace (trace (shared m))).
    { apply (proj1 (bus_run_locked_trace _ _ (Nat.le_refl _))), Hrun. }
    split; [exact Hlocked | apply locked_trace_port_events, Hlocked].
  - intros Hdone. destruct (ec_lock m) as [o|] eqn:Ho; [|reflexivity].
    destruct (Howner o eq_refl) as [q Hq].
    pose proof (Hsafe o q Hq) as Hsq. rewrite view_self in Hsq.
    unfold all_returned in Hdone. rewrite Forall_lookup in Hdone.
    rewrite (Hdone o q Hq) in Hsq. cbn [safe] in Hsq.
    apply Hlock, Hsq.
Qed.

Lemma transport_sequences_never_interleave_witness :
  locked_trace
    (trace (shared (exec (scripted [0x01; 0x2C]) sched_alternate
                      (boot pool_two)))) /\
  transport_trace 12
    (port_events
       (trace (shared (exec (scripted [0x01; 0x2C]) sched_alternate
                         (boot pool_two))))).
Proof.
  apply (transport_sequences_never_interleave
           (scripted [0x01; 0x2C]) pool_two sched_alternate).
  vm_compute. reflexivity.
Defined.

(** The two threads of the example did take turns: the reader got the lock
    first, the writer had to wait, and the four register accesses sit in the
    history one after the other. *)
Example interleaved_run_trace :
  let m := exec (scripted [0x01; 0x2C]) sched_alternate (boot pool_two) in
  trace (shared m)
  = critical_section [ec_read_events REG_RPM_HIGH 0x01;
                      ec_read_events REG_RPM_LOW 0x2C]
    ++ critical_section [ec_write_events REG_PWM 184;
                         ec_write_events REG_MANUAL_ENABLE 1] /\
  fan_data (shared m) = {| pwm_value := 255; manual_mode := true |} /\
  all_returned m.
Proof.
  vm_compute. split; [reflexivity|]. split; [reflexivity|].
  repeat constructor.
Qed.

(** * Further properties of the driver *)

(** ** The read callback, case by case *)

Lemma fan_read_fan_input hw val (w : world) :
  run hw (fan_read hwmon_fan hwmon_fan_input val) w
  = ((0, fst (run hw read_rpm w)), snd (run hw read_rpm w)).
Proof.
  unfold fan_read. cbn [hwmon_sensor_types_eqb andb].
  change (hwmon_fan_input =? hwmon_fan_input) with true. cbn match.
  rewrite run_mbind. destruct (run hw read_rpm w) as [rpm w']. reflexivity.
Qed.

Lemma fan_read_unsupported hw type attr val (w : world) :
  ~ (type = hwmon_fan /\ attr = hwmon_fan_input) ->
  ~ (type = hwmon_pwm /\ (attr = hwmon_pwm_enable \/ attr = hwmon_pwm_input)) ->
  run hw (fan_read type attr val) w = ((- EOPNOTSUPP, val), w).
Proof.
  intros Hfan Hpwm. unfold fan_read.
  destruct type; cbn [hwmon_sensor_types_eqb andb]; try reflexivity.
  - destruct (Z.eqb_spec attr hwmon_fan_input); [|reflexivity].
    exfalso. apply Hfan. split; [reflexivity|assumption].
  - destruct (Z.eqb_spec attr hwmon_pwm_enable);
      [exfalso; apply Hpwm; split; [reflexivity|left; assumption]|].
    destruct (Z.eqb_spec attr hwmon_pwm_input);
      [exfalso; apply Hpwm; split; [reflexivity|right; assumption]|].
    reflexivity.
Qed.

Lemma read_rpm_range hw (w : world) :
  0 <= fst (run hw read_rpm w) < 65536.
Proof.
  rewrite run_read_rpm. cbn [fst].
  rewrite lor_shiftl_bytes by apply inb_value_range.
  pose proof (inb_value_range hw (after w (EvLock :: ec_select REG_RPM_HIGH))
                EC_DATA_PORT).
  match goal with |- _ <= _ + ?l < _ => assert (0 <= l < 256) by apply inb_value_range end.
  lia.
Qed.

Lemma read_rpm_fan_data hw (w : world) :
  fan_data (snd (run hw read_rpm w)) = fan_data w.
Proof. rewrite run_read_rpm. reflexivity. Qed.

(** The three attributes the read callback supports. *)
Lemma fan_read_supported_cases type attr :
  (type = hwmon_fan /\ attr = hwmon_fan_input) \/
  (type = hwmon_pwm /\ attr = hwmon_pwm_enable) \/
  (type = hwmon_pwm /\ attr = hwmon_pwm_input) \/
  (~ (type = hwmon_fan /\ attr = hwmon_fan_input) /\
   ~ (type = hwmon_pwm /\
      (attr = hwmon_pwm_enable \/ attr = hwmon_pwm_input))).
Proof.
  destruct (decide (type = hwmon_fan)) as [->|Hf].
  - destruct (Z.eq_dec attr hwmon_fan_input) as [->|Ha]; [left; auto|].
    right. right. right. split; intros [H1 H2]; [contradiction|discriminate].
  - destruct (decide (type = hwmon_pwm)) as [->|Hp].
    + destruct (Z.eq_dec attr hwmon_pwm_enable) as [->|He]; [right; left; auto|].
      destruct (Z.eq_dec attr hwmon_pwm_input) as [->|Hi];
        [right; right; left; auto|].
      right. right. right. split; [intros [H1 _]; discriminate|].
      intros [_ [H|H]]; contradiction.
    + right. right. right. split; intros [H1 _]; contradiction.
Qed.

(** X1: the read callback returns 0 or -EOPNOTSUPP.  It never changes the
    cached fan state.  When it fails, the cell behind [val] and the event
    history are untouched too; when it succeeds on the fan input, the value
    handed back lies in 0..65535. *)
Theorem fan_read_outcomes hw type attr val (w : world) :
  let r := run hw (fan_read type attr val) w in
  (fst (fst r) = 0 \/ fst (fst r) = - EOPNOTSUPP) /\
  fan_data (snd r) = fan_data w /\
  (fst (fst r) <> 0 -> snd (fst r) = val /\ snd r = w) /\
  (fst (fst r) = 0 -> type = hwmon_fan -> 0 <= snd (fst r) < 65536).
Proof.
  cbn zeta.
  destruct (fan_read_supported_cases type attr)
    as [[-> ->]|[[-> ->]|[[-> ->]|[Hf Hp]]]].
  - rewrite fan_read_fan_input. cbn [fst snd].
    split; [left; reflexivity|]. split; [apply read_rpm_fan_data|].
    split; [intros H; contradiction|]. intros _ _. apply read_rpm_range.
  - rewrite (proj1 (fan_read_pwm_from_cache_aux hw w val)). cbn [fst snd].
    split; [left; reflexivity|]. split; [reflexivity|].
    split; [intros H; contradiction|]. discriminate.
  - rewrite (proj2 (fan_read_pwm_from_cache_aux hw w val)). cbn [fst snd].
    split; [left; reflexivity|]. split; [reflexivity|].
    split; [intros H; contradiction|]. discriminate.
  - rewrite fan_read_unsupported by assumption. cbn [fst snd].
    split; [right; reflexivity|]. split; [reflexivity|].
    split; [intros _; split; reflexivity|]. discriminate.
Qed.

Lemma fan_read_outcomes_witness :
  snd (fst (run (scripted []) (fan_read hwmon_temp 0 41) world_manual_77)) = 41 /\
  snd (run (scripted []) (fan_read hwmon_temp 0 41) world_manual_77)
  = world_manual_77.
Proof.
  apply (fan_read_outcomes (scripted []) hwmon_temp 0 41 world_manual_77).
  discriminate.
Defined.

(** ** Outcomes of the write callback *)

(** What the write callback accepts. *)
Lemma fan_write_cases type attr val :
  type <> hwmon_pwm \/
  (type = hwmon_pwm /\ attr <> hwmon_pwm_enable /\ attr <> hwmon_pwm_input) \/
  (type = hwmon_pwm /\ attr = hwmon_pwm_enable /\ (val < 0 \/ 1 < val)) \/
  (type = hwmon_pwm /\ attr = hwmon_pwm_enable /\ val = 1) \/
  (type = hwmon_pwm /\ attr = hwmon_pwm_enable /\ val = 0) \/
  (type = hwmon_pwm /\ attr = hwmon_pwm_input /\ (val < 0 \/ 255 < val)) \/
  (type = hwmon_pwm /\ attr = hwmon_pwm_input /\ 0 <= val <= 255).
Proof.
  destruct (decide (type = hwmon_pwm)) as [->|Ht]; [|left; exact Ht].
  destruct (Z.eq_dec attr hwmon_pwm_enable) as [->|He].
  - destruct (Z_lt_le_dec val 0); [right; right; left; auto|].
    destruct (Z_lt_le_dec 1 val); [right; right; left; auto|].
    destruct (Z.eq_dec val 1) as [->|H1]; [do 3 right; left; auto|].
    do 4 right. left. repeat split; lia.
  - destruct (Z.eq_dec attr hwmon_pwm_input) as [->|Hi];
      [|right; left; auto].
    destruct (Z_lt_le_dec val 0); [do 5 right; left; auto|].
    destruct (Z_lt_le_dec 255 val); [do 5 right; left; auto|].
    do 6 right. repeat split; lia.
Qed.

(** X2: the write callback returns 0, -EINVAL or -EOPNOTSUPP.  It returns 0
    exactly for the pwm type with pwm-enable and a value of 0..1, or with
    pwm-input and a value of 0..255.  Whenever it fails, with either error,
    the world is as before: cached state and event history. *)
Theorem fan_write_outcomes hw type attr val (w : world) :
  let r := run hw (fan_write type attr val) w in
  (fst r = 0 \/ fst r = - EINVAL \/ fst r = - EOPNOTSUPP) /\
  (fst r = 0 <->
   type = hwmon_pwm /\
   ((attr = hwmon_pwm_enable /\ 0 <= val <= 1) \/
    (attr = hwmon_pwm_input /\ 0 <= val <= 255))) /\
  (fst r <> 0 -> snd r = w).
Proof.
  cbn zeta.
  destruct (fan_write_cases type attr val)
    as [Ht|[(-> & He & Hi)|[(-> & -> & Hv)|[(-> & -> & ->)|[(-> & -> & ->)|
        [(-> & -> & Hv)|(-> & -> & Hv)]]]]]].
  - rewrite fan_write_other_type by exact Ht. cbn [fst snd].
    split; [right; right; reflexivity|]. split; [|reflexivity].
    split; [discriminate|]. intros [H _]. contradiction.
  - rewrite fan_write_other_attr by assumption. cbn [fst snd].
    split; [right; right; reflexivity|]. split; [|reflexivity].
    split; [discriminate|]. intros [_ [[H _]|[H _]]]; contradiction.
  - rewrite fan_write_enable_invalid by exact Hv. cbn [fst snd].
    split; [right; left; reflexivity|]. split; [|reflexivity].
    split; [discriminate|]. intros [_ [[_ H]|[H _]]]; [lia|discriminate].
  - rewrite fan_write_enable_manual. cbn [fst snd].
    split; [left; reflexivity|]. split; [|intros H; contradiction].
    split; [|reflexivity]. intros _. split; [reflexivity|]. left. split; [reflexivity|lia].
  - rewrite fan_write_enable_auto. cbn [fst snd].
    split; [left; reflexivity|]. split; [|intros H; contradiction].
    split; [|reflexivity]. intros _. split; [reflexivity|]. left. split; [reflexivity|lia].
  - rewrite fan_write_input_invalid by exact Hv. cbn [fst snd].
    split; [right; left; reflexivity|]. split; [|reflexivity].
    split; [discriminate|]. intros [_ [[H _]|[_ H]]]; [discriminate|lia].
  - rewrite fan_write_input_valid by exact Hv. cbn [fst snd].
    split; [left; reflexivity|]. split; [|intros H; contradiction].
    split; [|reflexivity]. intros _. split; [reflexivity|]. right. split; [reflexivity|exact Hv].
Qed.

Lemma fan_write_outcomes_witness :
  snd (run (scripted []) (fan_write hwmon_fan 1 1) world_manual_77)
  = world_manual_77.
Proof.
  apply (fan_write_outcomes (scripted []) hwmon_fan 1 1 world_manual_77).
  discriminate.
Defined.

(** ** Visibility and support agree *)

(** X3: [fan_is_visible] hides an attribute exactly when the read callback
    refuses it with -EOPNOTSUPP, and marks it writable (mode 0644) exactly
    when the write callback does not refuse it with -EOPNOTSUPP. *)
Theorem fan_is_visible_agrees hw type attr val (w : world) :
  (fan_is_visible type attr = 0 <->
   fst (fst (run hw (fan_read type attr val) w)) = - EOPNOTSUPP) /\
  (fan_is_visible type attr = 420 <->
   fst (run hw (fan_write type attr val) w) <> - EOPNOTSUPP).
Proof.
  split.
  - destruct (fan_read_supported_cases type attr)
      as [[-> ->]|[[-> ->]|[[-> ->]|[Hf Hp]]]].
    + rewrite fan_read_fan_input. split; discriminate.
    + rewrite (proj1 (fan_read_pwm_from_cache_aux hw w val)). split; discriminate.
    + rewrite (proj2 (fan_read_pwm_from_cache_aux hw w val)). split; discriminate.
    + rewrite fan_read_unsupported by assumption. cbn [fst].
      split; [reflexivity|]. intros _. unfold fan_is_visible.
      destruct type; cbn [hwmon_sensor_types_eqb andb]; try reflexivity.
      * destruct (Z.eqb_spec attr hwmon_fan_input); [|reflexivity].
        exfalso. apply Hf. auto.
      * destruct (Z.eqb_spec attr hwmon_pwm_enable);
          [exfalso; apply Hp; auto|].
        destruct (Z.eqb_spec attr hwmon_pwm_input);
          [exfalso; apply Hp; auto|]. reflexivity.
  - destruct (fan_write_cases type attr val)
      as [Ht|[(-> & He & Hi)|[(-> & -> & Hv)|[(-> & -> & ->)|[(-> & -> & ->)|
          [(-> & -> & Hv)|(-> & -> & Hv)]]]]]].
    + rewrite fan_write_other_type by exact Ht. cbn [fst].
      split; [|intros H; contradiction]. unfold fan_is_visible.
      destruct type; cbn [hwmon_sensor_types_eqb andb];
        try discriminate; try contradiction.
      destruct (attr =? hwmon_fan_input); discriminate.
    + rewrite fan_write_other_attr by assumption. cbn [fst].
      split; [|intros H; contradiction]. unfold fan_is_visible.
      cbn [hwmon_sensor_types_eqb andb].
      destruct (Z.eqb_spec attr hwmon_pwm_enable); [contradiction|].
      destruct (Z.eqb_spec attr hwmon_pwm_input); [contradiction|].
      discriminate.
    + rewrite fan_write_enable_invalid by exact Hv. split; [discriminate|reflexivity].
    + rewrite fan_write_enable_manual. split; [discriminate|reflexivity].
    + rewrite fan_write_enable_auto. split; [discriminate|reflexivity].
    + rewrite fan_write_input_invalid by exact Hv. split; [discriminate|reflexivity].
    + rewrite fan_write_input_valid by exact Hv. split; [discriminate|reflexivity].
Qed.

Lemma fan_is_visible_agrees_witness :
  fst (fst (run (scripted []) (fan_read hwmon_pwm 2 0) world_init)) = -95 /\
  fst (run (scripted []) (fan_write hwmon_pwm 0 300) world_init) <> -95.
Proof.
  destruct (fan_is_visible_agrees (scripted []) hwmon_pwm 2 0 world_init)
    as [Hr _].
  destruct (fan_is_visible_agrees (scripted []) hwmon_pwm 0 300 world_init)
    as [_ Hw].
  split; [apply Hr | apply Hw]; reflexivity.
Defined.

(** ** Writing an attribute and reading it back *)

(** X4: a value 0 or 1 written to pwm-enable is what a following read of
    pwm-enable returns.  A duty 0..255 written to pwm-input is what a
    following read of pwm-input returns when the mode is manual; in auto mode
    the read returns 0. *)
Theorem write_then_read hw (w : world) :
  (forall v vr, 0 <= v <= 1 ->
     fst (run hw (fan_read hwmon_pwm hwmon_pwm_enable vr)
            (snd (run hw (fan_write hwmon_pwm hwmon_pwm_enable v) w)))
     = (0, v)) /\
  (forall d vr, 0 <= d <= 255 ->
     fst (run hw (fan_read hwmon_pwm hwmon_pwm_input vr)
            (snd (run hw (fan_write hwmon_pwm hwmon_pwm_input d) w)))
     = (0, if manual_mode (fan_data w) then d else 0)).
Proof.
  split.
  - intros v vr Hv.
    rewrite (proj1 (fan_read_pwm_from_cache_aux hw _ vr)). cbn [fst].
    assert (Hcase : v = 0 \/ v = 1) by lia. destruct Hcase as [-> | ->].
    + rewrite fan_write_enable_auto. reflexivity.
    + rewrite fan_write_enable_manual. reflexivity.
  - intros d vr Hd.
    rewrite (proj2 (fan_read_pwm_from_cache_aux hw _ vr)). cbn [fst].
    rewrite fan_write_input_valid by exact Hd.
    destruct (manual_mode (fan_data w)) eqn:Hm;
      cbn [snd with_pwm_value after fan_data manual_mode pwm_value];
      rewrite Hm; reflexivity.
Qed.

Lemma write_then_read_witness :
  fst (run (scripted []) (fan_read hwmon_pwm hwmon_pwm_enable 9)
         (snd (run (scripted []) (fan_write hwmon_pwm hwmon_pwm_enable 0)
                 world_manual_77)))
  = (0, 0) /\
  fst (run (scripted []) (fan_read hwmon_pwm hwmon_pwm_input 9)
         (snd (run (scripted []) (fan_write hwmon_pwm hwmon_pwm_input 128)
                 world_manual_77)))
  = (0, 128).
Proof.
  destruct (write_then_read (scripted []) world_manual_77) as [He Hi].
  split; [apply (He 0 9) | apply (Hi 128 9)]; lia.
Defined.

(** ** Switching modes *)

(** X5: switching to auto keeps the cached duty: after a write of 0 and then
    a write of 1 to pwm-enable, the duty cached before is cached still, the
    mode is manual, and the second call has written [scale_pwm] of that duty
    to the PWM register. *)
Theorem auto_then_manual_keeps_duty hw (w : world) :
  let w1 := snd (run hw (fan_write hwmon_pwm hwmon_pwm_enable 0) w) in
  let w2 := snd (run hw (fan_write hwmon_pwm hwmon_pwm_enable 1) w1) in
  fan_data w1 = {| pwm_value := pwm_value (fan_data w); manual_mode := false |} /\
  fan_data w2 = {| pwm_value := pwm_value (fan_data w); manual_mode := true |} /\
  trace w2
  = trace w
    ++ critical_section [ec_write_events REG_MANUAL_ENABLE 0]
    ++ critical_section
         [ec_write_events REG_PWM (scale_pwm (pwm_value (fan_data w)));
          ec_write_events REG_MANUAL_ENABLE 1].
Proof.
  cbn zeta. rewrite fan_write_enable_auto. cbn [snd].
  rewrite fan_write_enable_manual. cbn [snd].
  split; [reflexivity|]. split; [reflexivity|].
  cbn [trace with_pwm_value with_manual_mode after fan_data pwm_value].
  rewrite <- app_assoc. reflexivity.
Qed.

(** X6: writing the same value to pwm-enable twice is not a no-op on the
    bus but changes nothing further: the second call repeats the register
    writes of the first and leaves the cached state as the first left it. *)
Theorem enable_twice hw (w : world) (v : Z) :
  0 <= v <= 1 ->
  let w1 := snd (run hw (fan_write hwmon_pwm hwmon_pwm_enable v) w) in
  let w2 := snd (run hw (fan_write hwmon_pwm hwmon_pwm_enable v) w1) in
  exists evs,
    evs <> [] /\
    trace w1 = trace w ++ evs /\
    trace w2 = trace w1 ++ evs /\
    fan_data w2 = fan_data w1.
Proof.
  intros Hv. cbn zeta.
  assert (Hcase : v = 0 \/ v = 1) by lia. destruct Hcase as [-> | ->].
  - rewrite !fan_write_enable_auto. cbn [snd].
    eexists. split; [|split; [reflexivity|split; reflexivity]]. discriminate.
  - rewrite !fan_write_enable_manual. cbn [snd].
    eexists. split; [|split; [reflexivity|split; reflexivity]]. discriminate.
Qed.

Lemma enable_twice_witness :
  exists evs,
    evs <> [] /\
    trace (snd (run (scripted []) (fan_write hwmon_pwm hwmon_pwm_enable 1)
                  world_init))
    = trace world_init ++ evs /\
    trace (snd (run (scripted []) (fan_write hwmon_pwm hwmon_pwm_enable 1)
                  (snd (run (scripted []) (fan_write hwmon_pwm hwmon_pwm_enable 1)
                          world_init))))
    = trace (snd (run (scripted []) (fan_write hwmon_pwm hwmon_pwm_enable 1)
                    world_init)) ++ evs /\
    fan_data (snd (run (scripted []) (fan_write hwmon_pwm hwmon_pwm_enable 1)
                     (snd (run (scripted []) (fan_write hwmon_pwm hwmon_pwm_enable 1)
                             world_init))))
    = fan_data (snd (run (scripted []) (fan_write hwmon_pwm hwmon_pwm_enable 1)
                       world_init)).
Proof. apply (enable_twice (scripted []) world_init 1). lia. Defined.

(** X7: setting a duty and switching to manual commute in their result:
    whichever of the two writes comes first, the driver ends in manual mode
    with that duty cached, and the last thing put on the bus is the critical
    section that writes [scale_pwm] of that duty and then 1 to
    manual-enable. *)
Theorem duty_and_manual_commute hw (w : world) (d : Z) :
  0 <= d <= 255 ->
  let last := critical_section [ec_write_events REG_PWM (scale_pwm d);
                                ec_write_events REG_MANUAL_ENABLE 1] in
  let wa := snd (run hw (fan_write hwmon_pwm hwmon_pwm_enable 1)
                   (snd (run hw (fan_write hwmon_pwm hwmon_pwm_input d) w))) in
  let wb := snd (run hw (fan_write hwmon_pwm hwmon_pwm_input d)
                   (snd (run hw (fan_write hwmon_pwm hwmon_pwm_enable 1) w))) in
  fan_data wa = {| pwm_value := d; manual_mode := true |} /\
  fan_data wb = {| pwm_value := d; manual_mode := true |} /\
  (exists ta, trace wa = ta ++ last) /\
  (exists tb, trace wb = tb ++ last).
Proof.
  intros Hd. cbn zeta.
  rewrite (fan_write_input_valid hw d w) by exact Hd.
  rewrite (fan_write_enable_manual hw w). cbn [snd].
  rewrite fan_write_enable_manual.
  rewrite fan_write_input_valid by exact Hd. cbn [snd].
  cbn [with_pwm_value after with_manual_mode fan_data manual_mode].
  destruct (manual_mode (fan_data w)); cbn [snd fan_data trace pwm_value
    with_pwm_value after with_manual_mode manual_mode];
    (split; [reflexivity|]); (split; [reflexivity|]);
    split; eexists; reflexivity.
Qed.

Lemma duty_and_manual_commute_witness :
  fan_data
    (snd (run (scripted []) (fan_write hwmon_pwm hwmon_pwm_enable 1)
            (snd (run (scripted []) (fan_write hwmon_pwm hwmon_pwm_input 40)
                    world_init))))
  = {| pwm_value := 40; manual_mode := true |} /\
  fan_data
    (snd (run (scripted []) (fan_write hwmon_pwm hwmon_pwm_input 40)
            (snd (run (scripted []) (fan_write hwmon_pwm hwmon_pwm_enable 1)
                    world_init))))
  = {| pwm_value := 40; manual_mode := true |}.
Proof.
  destruct (duty_and_manual_commute (scripted []) world_init 40)
    as (Ha & Hb & _); [lia|].
  split; [exact Ha | exact Hb].
Defined.

(** ** More on the scaler *)

Lemma scale_pwm_byte_range (v : Z) :
  0 <= v <= 255 -> 1 <= scale_pwm v <= 184.
Proof.
  intros Hv.
  destruct (Z.eq_dec v 255) as [->|H255]; [vm_compute; split; discriminate|].
  destruct (Z.eq_dec v 0) as [->|H0]; [vm_compute; split; discriminate|].
  rewrite scale_pwm_mid by lia.
  assert (0 <= (v * 183 + 127) / 255 <= 182); [|lia]. split.
  - apply Z.div_pos; lia.
  - apply Z.lt_succ_r. apply Z.div_lt_upper_bound; lia.
Qed.

Lemma forallb_range (P : Z -> bool) (lo : Z) (n : nat) :
  forallb P (map (fun i => lo + Z.of_nat i) (seq 0 n)) = true ->
  forall h, lo <= h < lo + Z.of_nat n -> P h = true.
Proof.
  intros H h Hh. rewrite forallb_forall in H. apply H.
  apply in_map_iff. exists (Z.to_nat (h - lo)). split; [lia|].
  apply in_seq. lia.
Qed.

(** X8: whatever integer is passed, once converted to [u8] it is scaled into
    1..184: the scaler never yields 0, the value the PWM register must not be
    given, and never more than [PWM_MAX_VAL]. *)
Theorem scale_pwm_never_zero (x : Z) :
  1 <= scale_pwm (u8 x) <= PWM_MAX_VAL.
Proof.
  change PWM_MAX_VAL with 184. apply scale_pwm_byte_range.
  pose proof (u8_range x). lia.
Qed.

(** X9: the scaler skips no hardware level: from one duty to the next the
    scaled value stays or goes up by one, and every level 1..184 is the
    scaled value of some duty 0..255. *)
Theorem scale_pwm_reaches_every_level :
  (forall d, 0 <= d < 255 ->
     scale_pwm d <= scale_pwm (d + 1) <= scale_pwm d + 1) /\
  (forall h, 1 <= h <= 184 ->
     exists d, 0 <= d <= 255 /\ scale_pwm d = h).
Proof.
  split.
  - intros d Hd.
    destruct (Z.eq_dec d 0) as [->|H0]; [vm_compute; split; discriminate|].
    destruct (Z.eq_dec d 254) as [->|H254]; [vm_compute; split; discriminate|].
    rewrite !scale_pwm_mid by lia.
    replace ((d + 1) * 183 + 127) with (d * 183 + 127 + 183) by lia.
    set (x := d * 183 + 127).
    pose proof (Z.div_mod x 255 ltac:(lia)).
    pose proof (Z.mod_pos_bound x 255 ltac:(lia)).
    pose proof (Z.div_mod (x + 183) 255 ltac:(lia)).
    pose proof (Z.mod_pos_bound (x + 183) 255 ltac:(lia)).
    lia.
  - intros h Hh. exists (level_duty h).
    pose proof (forallb_range
                  (fun h => (scale_pwm (level_duty h) =? h)
                            && (0 <=? level_duty h) && (level_duty h <=? 255))
                  1 184 ltac:(vm_compute; reflexivity) h ltac:(lia)) as H.
    cbv beta in H. apply andb_prop in H as [H H3]. apply andb_prop in H as [H1 H2].
    lia.
Qed.

Lemma scale_pwm_reaches_every_level_witness :
  scale_pwm 10 <= scale_pwm (10 + 1) <= scale_pwm 10 + 1 /\
  exists d, 0 <= d <= 255 /\ scale_pwm d = 100.
Proof.
  destruct scale_pwm_reaches_every_level as [Hstep Hsurj].
  split; [apply Hstep | apply Hsurj]; lia.
Defined.

(** ** The cached duty stays a byte *)

Lemma run_thread_cons hw (c : call) (cs : list call) (w : world) :
  run hw (thread_prog (c :: cs)) w
  = run hw (thread_prog cs) (snd (run hw (call_prog c) w)).
Proof.
  cbn [thread_prog]. rewrite run_mbind.
  destruct (run hw (call_prog c) w) as [[] w']. reflexivity.
Qed.

Lemma call_duty_in_range hw (c : call) (w : world) :
  duty_in_range w -> duty_in_range (snd (run hw (call_prog c) w)).
Proof.
  unfold duty_in_range. intros Hw.
  destruct c as [type attr val|type attr val|]; cbn [call_prog].
  - rewrite run_mbind.
    destruct (run_fan_read_shape hw type attr val w) as (evs & Hfd & _).
    destruct (run hw (fan_read type attr val) w) as [r w'].
    cbn [snd run] in *. rewrite Hfd. exact Hw.
  - rewrite run_mbind.
    assert (H : 0 <= pwm_value
                       (fan_data (snd (run hw (fan_write type attr val) w)))
                <= 255).
    { destruct (fan_write_cases type attr val)
        as [Ht|[(-> & He & Hi)|[(-> & -> & Hv)|[(-> & -> & ->)|[(-> & -> & ->)|
            [(-> & -> & Hv)|(-> & -> & Hv)]]]]]].
      - rewrite fan_write_other_type by exact Ht. exact Hw.
      - rewrite fan_write_other_attr by assumption. exact Hw.
      - rewrite fan_write_enable_invalid by exact Hv. exact Hw.
      - rewrite fan_write_enable_manual. exact Hw.
      - rewrite fan_write_enable_auto. exact Hw.
      - rewrite fan_write_input_invalid by exact Hv. exact Hw.
      - rewrite fan_write_input_valid by exact Hv.
        destruct (manual_mode (fan_data w)); exact Hv. }
    destruct (run hw (fan_write type attr val) w) as [r w'].
    cbn [snd run] in *. exact H.
  - unfold gpd_remove. rewrite run_set_auto_mode. exact Hw.
Qed.

(** X10: the cached duty never leaves 0..255: every call into the driver
    keeps it there, and so it is there after any sequence of calls made since
    the module was loaded. *)
Theorem cached_duty_stays_byte hw :
  (forall (c : call) (w : world),
     duty_in_range w -> duty_in_range (snd (run hw (call_prog c) w))) /\
  (forall cs : list call,
     duty_in_range (snd (run hw (thread_prog cs) world_init))).
Proof.
  split; [intros c w; apply call_duty_in_range|].
  intros cs.
  assert (H : forall w, duty_in_range w ->
                        duty_in_range (snd (run hw (thread_prog cs) w))).
  { induction cs as [|c cs IH]; intros w Hw; [exact Hw|].
    rewrite run_thread_cons. apply IH, call_duty_in_range, Hw. }
  apply H. unfold duty_in_range. cbn. lia.
Qed.

Lemma cached_duty_stays_byte_witness :
  duty_in_range
    (snd (run (scripted []) (call_prog (CallFanWrite hwmon_pwm hwmon_pwm_input 9))
            world_manual_77)).
Proof.
  apply (proj1 (cached_duty_stays_byte (scripted []))).
  unfold duty_in_range. cbn. lia.
Defined.

(** ** Reading register accesses back from the ports *)

(** The two address bytes put the address together again. *)
Lemma addr_recombine (addr : Z) :
  0 <= addr < 65536 ->
  Z.lor (Z.shiftl (u8 (Z.shiftr addr 8)) 8) (u8 (Z.land addr 0xFF)) = addr.
Proof.
  intros H. rewrite lor_shiftl_bytes by apply u8_range.
  rewrite Z.shiftr_div_pow2 by lia. change (2 ^ 8) with 256.
  change 0xFF with (Z.ones 8). rewrite Z.land_ones by lia.
  change (2 ^ 8) with 256. unfold u8. rewrite Z.mod_mod by lia.
  rewrite (Z.mod_small (addr / 256)).
  - pose proof (Z.div_mod addr 256 ltac:(lia)). lia.
  - split; [apply Z.div_pos; lia | apply Z.div_lt_upper_bound; lia].
Qed.

Lemma is_byte_u8 (z : Z) : is_byte (u8 z) = true.
Proof.
  pose proof (u8_range z). unfold is_byte.
  apply andb_true_intro. split; [apply Z.leb_le | apply Z.ltb_lt]; lia.
Qed.

Lemma bus_run_select (addr : Z) :
  bus_run (BusHeld 0) (ec_select addr) = Some (BusHeld 11).
Proof.
  unfold ec_select.
  repeat (cbn [bus_run bus_step expects_outb next_pos Nat.eqb andb Z.eqb
               EC_ADDR_PORT EC_DATA_PORT Pos.eqb];
          rewrite ?is_byte_u8).
  reflexivity.
Qed.

Lemma decode_seq_write (addr val : Z) :
  0 <= addr < 65536 ->
  decode_seq (ec_write_events addr val) = Some (EcWrite addr val).
Proof.
  intros H. unfold decode_seq, ec_write_events.
  rewrite bus_run_app, bus_run_select.
  cbn [length ec_select app Nat.eqb andb bus_run bus_step expects_outb next_pos
       EC_DATA_PORT Z.eqb Pos.eqb bus_at_start nth event_value].
  rewrite addr_recombine by exact H. reflexivity.
Qed.

Lemma decode_seq_read (addr val : Z) :
  0 <= addr < 65536 ->
  decode_seq (ec_read_events addr val) = Some (EcRead addr val).
Proof.
  intros H. unfold decode_seq, ec_read_events.
  rewrite bus_run_app, bus_run_select.
  cbn [length ec_select app Nat.eqb andb bus_run bus_step expects_outb next_pos
       EC_DATA_PORT Z.eqb Pos.eqb bus_at_start nth event_value].
  rewrite addr_recombine by exact H. reflexivity.
Qed.

Lemma accesses_from_write (addr val : Z) (t : list event) :
  0 <= addr < 65536 ->
  accesses_from [] (ec_write_events addr val ++ t)
  = EcWrite addr val :: accesses_from [] t.
Proof.
  intros H. pose proof (decode_seq_write addr val H) as Hd.
  unfold ec_write_events, ec_select in *.
  cbn [accesses_from app is_port_event length Nat.eqb] in *.
  rewrite Hd. reflexivity.
Qed.

Lemma accesses_from_read (addr val : Z) (t : list event) :
  0 <= addr < 65536 ->
  accesses_from [] (ec_read_events addr val ++ t)
  = EcRead addr val :: accesses_from [] t.
Proof.
  intros H. pose proof (decode_seq_read addr val H) as Hd.
  unfold ec_read_events, ec_select in *.
  cbn [accesses_from app is_port_event length Nat.eqb] in *.
  rewrite Hd. reflexivity.
Qed.

(** X11: the address split of the transport loses nothing: for every 16-bit
    address, the port events that [ec_write] produces read back as one write
    of that value to that address, and the port events that [ec_read]
    produces as one read of that address with the byte it returned. *)
Theorem transport_address_round_trip hw (addr val : Z) :
  0 <= addr < 65536 ->
  accesses (trace (snd (run hw (ec_write addr val) world_init)))
  = [EcWrite addr val] /\
  accesses (trace (snd (run hw (ec_read addr) world_init)))
  = [EcRead addr (fst (run hw (ec_read addr) world_init))].
Proof.
  intros H. rewrite run_ec_write, run_ec_read.
  cbn [fst snd trace after world_init app]. unfold accesses. split.
  - rewrite <- (app_nil_r (ec_write_events addr val)).
    rewrite accesses_from_write by exact H. reflexivity.
  - rewrite <- (app_nil_r (ec_read_events addr _)).
    rewrite accesses_from_read by exact H. reflexivity.
Qed.

Lemma transport_address_round_trip_witness :
  accesses (trace (snd (run (scripted [9]) (ec_write 0xABCD 7) world_init)))
  = [EcWrite 0xABCD 7] /\
  accesses (trace (snd (run (scripted [9]) (ec_read 0xABCD) world_init)))
  = [EcRead 0xABCD (fst (run (scripted [9]) (ec_read 0xABCD) world_init))].
Proof. apply (transport_address_round_trip (scripted [9]) 0xABCD 7). lia. Defined.

(** ** Register accesses of a history of critical sections *)

Lemma accesses_from_lock (t : list event) :
  accesses_from [] (EvLock :: t) = accesses_from [] t.
Proof. reflexivity. Qed.

Lemma accesses_from_unlock (t : list event) :
  accesses_from [] (EvUnlock :: t) = accesses_from [] t.
Proof. reflexivity. Qed.

Lemma accesses_from_transport_seq (s : list event) :
  transport_seq s ->
  exists a, forall t, accesses_from [] (s ++ t) = a :: accesses_from [] t.
Proof.
  intros (addr & val & Haddr & [-> | ->]).
  - exists (EcWrite addr val). intros t. apply accesses_from_write, Haddr.
  - exists (EcRead addr val). intros t. apply accesses_from_read, Haddr.
Qed.

Lemma accesses_from_sequences (seqs : list (list event)) :
  Forall transport_seq seqs ->
  exists l, forall t,
    accesses_from [] (concat seqs ++ t) = l ++ accesses_from [] t.
Proof.
  induction 1 as [|s seqs Hs _ [l IH]].
  - exists []. reflexivity.
  - destruct (accesses_from_transport_seq s Hs) as [a Ha].
    exists (a :: l). intros t. cbn [concat]. rewrite <- app_assoc, Ha, IH.
    reflexivity.
Qed.

Lemma accesses_from_locked (t1 : list event) :
  locked_trace t1 ->
  exists l, forall t2,
    accesses_from [] (t1 ++ t2) = l ++ accesses_from [] t2.
Proof.
  intros (secs & -> & Hsecs).
  induction Hsecs as [|seqs secs Hseqs _ [l IH]].
  - exists []. reflexivity.
  - destruct (accesses_from_sequences seqs Hseqs) as [l1 H1].
    exists (l1 ++ l). intros t2. rewrite map_cons, concat_cons.
    unfold critical_section at 1.
    rewrite <- !app_assoc, <- app_comm_cons, accesses_from_lock.
    rewrite <- app_assoc, H1.
    change ([EvUnlock] ++ concat (map critical_section secs) ++ t2)
      with (EvUnlock :: concat (map critical_section secs) ++ t2).
    rewrite accesses_from_unlock, IH, app_assoc. reflexivity.
Qed.

(** After a history of complete critical sections, the accesses of what
    follows are read on their own. *)
Lemma accesses_app (t1 t2 : list event) :
  locked_trace t1 -> accesses (t1 ++ t2) = accesses t1 ++ accesses t2.
Proof.
  intros H. destruct (accesses_from_locked t1 H) as [l Hl]. unfold accesses.
  rewrite Hl. f_equal. specialize (Hl []). rewrite app_nil_r in Hl.
  cbn [accesses_from] in Hl. rewrite app_nil_r in Hl. symmetry. exact Hl.
Qed.

Lemma register_app (addr : Z) (t1 t2 : list event) :
  locked_trace t1 ->
  register addr (t1 ++ t2)
  = fold_left (note_write addr) (accesses t2) (register addr t1).
Proof.
  intros H. unfold register, last_write. rewrite accesses_app by exact H.
  apply fold_left_app.
Qed.

Lemma reg_in_range :
  0 <= REG_PWM < 65536 /\ 0 <= REG_MANUAL_ENABLE < 65536 /\
  0 <= REG_RPM_HIGH < 65536 /\ 0 <= REG_RPM_LOW < 65536.
Proof. vm_compute. repeat split; discriminate. Qed.

Lemma accesses_section2_write (a1 v1 a2 v2 : Z) :
  0 <= a1 < 65536 -> 0 <= a2 < 65536 ->
  accesses (critical_section [ec_write_events a1 v1; ec_write_events a2 v2])
  = [EcWrite a1 v1; EcWrite a2 v2].
Proof.
  intros H1 H2. unfold accesses, critical_section.
  rewrite accesses_from_lock, !concat_cons, concat_nil, app_nil_r.
  rewrite <- app_assoc.
  rewrite accesses_from_write, accesses_from_write by assumption.
  rewrite accesses_from_unlock. reflexivity.
Qed.

Lemma accesses_section2_read (a1 v1 a2 v2 : Z) :
  0 <= a1 < 65536 -> 0 <= a2 < 65536 ->
  accesses (critical_section [ec_read_events a1 v1; ec_read_events a2 v2])
  = [EcRead a1 v1; EcRead a2 v2].
Proof.
  intros H1 H2. unfold accesses, critical_section.
  rewrite accesses_from_lock, !concat_cons, concat_nil, app_nil_r.
  rewrite <- app_assoc.
  rewrite accesses_from_read, accesses_from_read by assumption.
  rewrite accesses_from_unlock. reflexivity.
Qed.

Lemma accesses_section1_write (a1 v1 : Z) :
  0 <= a1 < 65536 ->
  accesses (critical_section [ec_write_events a1 v1]) = [EcWrite a1 v1].
Proof.
  intros H1. unfold accesses, critical_section.
  rewrite accesses_from_lock, concat_cons, concat_nil, app_nil_r.
  rewrite accesses_from_write by assumption.
  rewrite accesses_from_unlock. reflexivity.
Qed.

(** The register accesses behind each shape of a call. *)
Lemma call_shape_accesses (duty : Z) (evs : list event) :
  call_shape duty evs ->
  accesses evs = [] \/
  (exists high low,
     accesses evs = [EcRead REG_RPM_HIGH high; EcRead REG_RPM_LOW low]) \/
  accesses evs = [EcWrite REG_MANUAL_ENABLE 0] \/
  accesses evs = [EcWrite REG_PWM (scale_pwm duty); EcWrite REG_MANUAL_ENABLE 1].
Proof.
  destruct reg_in_range as (Hp & Hm & Hh & Hl).
  intros [->| high low ->| ->| ->].
  - left. reflexivity.
  - right. left. exists high, low. apply accesses_section2_read; assumption.
  - right. right. left. apply accesses_section1_write; assumption.
  - right. right. right. apply accesses_section2_write; assumption.
Qed.

(** ** What a call does to the mode and to the registers *)

(** A call writes no register and keeps the mode (and, in manual mode, the
    duty), or writes 0 to manual-enable and leaves auto mode behind, or writes
    the scaled duty and 1 to manual-enable and leaves manual mode behind. *)
Lemma run_call_effect hw (c : call) (w : world) :
  exists evs,
    trace (snd (run hw (call_prog c) w)) = trace w ++ evs /\
    (((evs = [] \/
       exists high low,
         evs = critical_section [ec_read_events REG_RPM_HIGH high;
                                 ec_read_events REG_RPM_LOW low]) /\
      manual_mode (fan_data (snd (run hw (call_prog c) w)))
      = manual_mode (fan_data w) /\
      (manual_mode (fan_data w) = true ->
       pwm_value (fan_data (snd (run hw (call_prog c) w)))
       = pwm_value (fan_data w))) \/
     (evs = critical_section [ec_write_events REG_MANUAL_ENABLE 0] /\
      manual_mode (fan_data (snd (run hw (call_prog c) w))) = false) \/
     (evs = critical_section
              [ec_write_events REG_PWM
                 (scale_pwm
                    (pwm_value (fan_data (snd (run hw (call_prog c) w)))));
               ec_write_events REG_MANUAL_ENABLE 1] /\
      manual_mode (fan_data (snd (run hw (call_prog c) w))) = true)).
Proof.
  assert (Hquiet : forall w', snd (run hw (call_prog c) w) = w' ->
            trace w' = trace w ->
            manual_mode (fan_data w') = manual_mode (fan_data w) ->
            (manual_mode (fan_data w) = true ->
             pwm_value (fan_data w') = pwm_value (fan_data w)) ->
            exists evs,
    trace (snd (run hw (call_prog c) w)) = trace w ++ evs /\
    (((evs = [] \/
       exists high low,
         evs = critical_section [ec_read_events REG_RPM_HIGH high;
                                 ec_read_events REG_RPM_LOW low]) /\
      manual_mode (fan_data (snd (run hw (call_prog c) w)))
      = manual_mode (fan_data w) /\
      (manual_mode (fan_data w) = true ->
       pwm_value (fan_data (snd (run hw (call_prog c) w)))
       = pwm_value (fan_data w))) \/
     (evs = critical_section [ec_write_events REG_MANUAL_ENABLE 0] /\
      manual_mode (fan_data (snd (run hw (call_prog c) w))) = false) \/
     (evs = critical_section
              [ec_write_events REG_PWM
                 (scale_pwm
                    (pwm_value (fan_data (snd (run hw (call_prog c) w)))));
               ec_write_events REG_MANUAL_ENABLE 1] /\
      manual_mode (fan_data (snd (run hw (call_prog c) w))) = true))).
  { intros w' -> Ht Hm Hp. exists []. rewrite app_nil_r.
    split; [exact Ht|]. left. split; [left; reflexivity|]. split; assumption. }
  destruct c as [type attr val|type attr val|]; cbn [call_prog] in *.
  - rewrite run_mbind in *.
    destruct (fan_read_supported_cases type attr)
      as [[-> ->]|[[-> ->]|[[-> ->]|[Hf Hp]]]].
    + rewrite fan_read_fan_input, run_read_rpm. cbn [run snd fst].
      eexists. split; [reflexivity|]. left.
      split; [right; eexists _, _; reflexivity|]. split; [reflexivity|].
      intros _. reflexivity.
    + eapply Hquiet; [reflexivity|..];
        rewrite (proj1 (fan_read_pwm_from_cache_aux hw w val)); auto.
    + eapply Hquiet; [reflexivity|..];
        rewrite (proj2 (fan_read_pwm_from_cache_aux hw w val)); auto.
    + eapply Hquiet; [reflexivity|..];
        rewrite fan_read_unsupported by assumption; auto.
  - rewrite run_mbind in *.
    assert (Hsnd : forall r w', run hw (fan_write type attr val) w = (r, w') ->
              snd (let '(a, w'0) := run hw (fan_write type attr val) w in
                   run hw (Ret tt) w'0) = w').
    { intros r w' ->. reflexivity. }
    destruct (fan_write_cases type attr val)
      as [Ht|[(-> & He & Hi)|[(-> & -> & Hv)|[(-> & -> & ->)|[(-> & -> & ->)|
          [(-> & -> & Hv)|(-> & -> & Hv)]]]]]].
    + eapply Hquiet; [eapply Hsnd, fan_write_other_type, Ht|..]; auto.
    + eapply Hquiet; [eapply Hsnd, fan_write_other_attr; assumption|..]; auto.
    + eapply Hquiet; [eapply Hsnd, fan_write_enable_invalid, Hv|..]; auto.
    + rewrite (Hsnd _ _ (fan_write_enable_manual hw w)).
      eexists. split; [reflexivity|]. right. right. split; reflexivity.
    + rewrite (Hsnd _ _ (fan_write_enable_auto hw w)).
      eexists. split; [reflexivity|]. right. left. split; reflexivity.
    + eapply Hquiet; [eapply Hsnd, fan_write_input_invalid, Hv|..]; auto.
    + pose proof (fan_write_input_valid hw val w Hv) as Hrun.
      destruct (manual_mode (fan_data w)) eqn:Hm.
      * rewrite (Hsnd _ _ Hrun).
        eexists. split; [reflexivity|]. right. right. split; [reflexivity|].
        cbn [fan_data with_pwm_value after manual_mode]. exact Hm.
      * eapply Hquiet; [eapply Hsnd, Hrun|reflexivity|exact Hm|].
        intros H. discriminate H.
  - unfold gpd_remove. rewrite run_set_auto_mode. cbn [snd].
    eexists. split; [reflexivity|]. right. left. split; reflexivity.
Qed.

(** ** The cache and the registers agree *)

Lemma call_coherent hw (c : call) (w : world) :
  coherent w -> coherent (snd (run hw (call_prog c) w)).
Proof.
  intros (Hlocked & Hman & Hauto).
  destruct reg_in_range as (Hp & Hm & Hh & Hl).
  destruct (run_call_effect hw c w) as (evs & Ht & Heff).
  set (w' := snd (run hw (call_prog c) w)) in *.
  unfold coherent. rewrite Ht, !register_app by exact Hlocked.
  destruct Heff as [([-> | (high & low & ->)] & Hmode & Hduty)
                   |[(-> & Hmode)|(-> & Hmode)]].
  - rewrite app_nil_r. cbn [accesses accesses_from fold_left].
    rewrite Hmode. split; [exact Hlocked|]. split; [|exact Hauto].
    intros Hm'. rewrite (Hduty Hm'). apply Hman, Hm'.
  - rewrite accesses_section2_read by assumption. cbn [fold_left note_write].
    rewrite Hmode. split.
    + apply locked_trace_app; [exact Hlocked|]. apply locked_trace_section.
      repeat constructor; apply transport_seq_read; assumption.
    + split; [|exact Hauto]. intros Hm'. rewrite (Hduty Hm'). apply Hman, Hm'.
  - rewrite accesses_section1_write by assumption. rewrite Hmode. split.
    + apply locked_trace_app; [exact Hlocked|]. apply locked_trace_section.
      repeat constructor; apply transport_seq_write; assumption.
    + split; [discriminate|]. intros _. left. reflexivity.
  - rewrite accesses_section2_write by assumption. rewrite Hmode. split.
    + apply locked_trace_app; [exact Hlocked|]. apply locked_trace_section.
      repeat constructor; apply transport_seq_write; assumption.
    + split; [|discriminate]. intros _. split; reflexivity.
Qed.

Lemma world_init_coherent : coherent world_init.
Proof.
  split; [apply locked_trace_nil|]. split; [discriminate|].
  intros _. right. reflexivity.
Qed.

(** X12: called from one thread, the driver keeps its cache and the
    registers in agreement.  Whenever the mode flag says manual, the last
    value written to the manual-enable register is 1 and the last value
    written to the PWM register is the scaled cached duty; whenever it says
    auto, the manual-enable register was last written 0 or not written at
    all.  This holds at module load, is kept by every call, and so holds
    after any sequence of calls. *)
Theorem cache_agrees_with_registers hw :
  (forall (c : call) (w : world),
     coherent w -> coherent (snd (run hw (call_prog c) w))) /\
  (forall cs : list call,
     coherent (snd (run hw (thread_prog cs) world_init))).
Proof.
  split; [intros c w; apply call_coherent|].
  intros cs.
  assert (H : forall w, coherent w ->
                        coherent (snd (run hw (thread_prog cs) w))).
  { induction cs as [|c cs IH]; intros w Hw; [exact Hw|].
    rewrite run_thread_cons. apply IH, call_coherent, Hw. }
  apply H, world_init_coherent.
Qed.

Lemma cache_agrees_with_registers_witness :
  coherent
    (snd (run (scripted []) (call_prog (CallFanWrite hwmon_pwm hwmon_pwm_enable 1))
            world_init)).
Proof.
  apply (proj1 (cache_agrees_with_registers (scripted []))).
  split; [exists []; split; [reflexivity|constructor]|].
  split; [discriminate|]. intros _. right. reflexivity.
Defined.

(** ** The only register accesses the driver makes *)

Lemma call_allowed hw (c : call) (w : world) :
  duty_in_range w -> locked_trace (trace w) ->
  Forall allowed_access (accesses (trace w)) ->
  Forall allowed_access (accesses (trace (snd (run hw (call_prog c) w)))).
Proof.
  intros Hduty Hlocked Hall.
  pose proof (call_duty_in_range hw c w Hduty) as Hduty'.
  destruct (run_call_shape hw c w) as (evs & Ht & Hs).
  rewrite Ht, accesses_app by exact Hlocked.
  apply Forall_app. split; [exact Hall|].
  destruct (call_shape_accesses _ _ Hs) as [->|[(high & low & ->)|[->| ->]]].
  - constructor.
  - constructor; [left; reflexivity|].
    constructor; [right; reflexivity|]. constructor.
  - constructor; [|constructor]. right. auto.
  - constructor; [|constructor; [|constructor]].
    + left. split; [reflexivity|]. change PWM_MAX_VAL with 184.
      apply scale_pwm_byte_range, Hduty'.
    + right. auto.
Qed.

(** X13: the driver touches four registers and nothing else.  After any
    sequence of calls since module load, every register access in the port
    trace is a read of the RPM-high or RPM-low register, a write of 0 or 1 to
    the manual-enable register, or a write of a value in 1..184 to the PWM
    register; the PWM register is never written 0. *)
Theorem only_allowed_accesses hw (cs : list call) :
  Forall allowed_access
    (accesses (trace (snd (run hw (thread_prog cs) world_init)))).
Proof.
  assert (H : forall w,
            duty_in_range w -> locked_trace (trace w) ->
            Forall allowed_access (accesses (trace w)) ->
            Forall allowed_access
              (accesses (trace (snd (run hw (thread_prog cs) w))))).
  { induction cs as [|c cs IH]; intros w Hd Hl Ha; [exact Ha|].
    rewrite run_thread_cons. apply IH.
    - apply call_duty_in_range, Hd.
    - destruct (run_call_shape hw c w) as (evs & Ht & Hs). rewrite Ht.
      apply locked_trace_app; [exact Hl | eapply call_shape_locked, Hs].
    - apply call_allowed; assumption. }
  apply H.
  - unfold duty_in_range. cbn. lia.
  - apply locked_trace_nil.
  - constructor.
Qed.

(** ** Concurrent callers: progress and ownership of the lock *)

Lemma step_enabled hw (m : machine) (i : nat) (p : prog unit) :
  threads m !! i = Some p ->
  p <> Ret tt ->
  (forall k, p = MutexLock k -> ec_lock m = None) ->
  is_Some (step hw i m).
Proof.
  intros Hp Hret Hlock. unfold step. rewrite Hp.
  destruct p as [[]|v port k|port k|k|k|k|v k|k|v k];
    try (eexists; reflexivity).
  - contradiction.
  - rewrite (Hlock k eq_refl). eexists. reflexivity.
Qed.

(** X14: callers of the driver never deadlock and never misuse the lock.
    Whatever the threads call and however they are scheduled: as long as some
    thread has not returned, some thread can take its next step; a thread
    about to release the lock is its owner; and a thread about to take the
    lock does not own it already. *)
Theorem callers_never_deadlock hw (pool : list (list call)) (sched : list nat) :
  let m := exec hw sched (boot pool) in
  (~ all_returned m -> exists i, is_Some (step hw i m)) /\
  (forall i k, threads m !! i = Some (MutexUnlock k) -> ec_lock m = Some i) /\
  (forall i k, threads m !! i = Some (MutexLock k) -> ec_lock m <> Some i).
Proof.
  intros m.
  destruct (exec_inv hw sched (boot pool) (boot_inv pool))
    as (b & Hrun & Hlock & Howner & Hsafe).
  fold m in Hrun, Hlock, Howner, Hsafe.
  split; [|split].
  - intros Hnot. destruct (ec_lock m) as [o|] eqn:Ho.
    + exists o. destruct (Howner o eq_refl) as [q Hq].
      pose proof (Hsafe o q Hq) as Hsq. rewrite view_self in Hsq.
      assert (Hb : b <> BusFree).
      { intros Hb. apply Hlock in Hb. discriminate Hb. }
      apply (step_enabled hw m o q Hq).
      * intros ->. cbn [safe] in Hsq. contradiction.
      * intros k ->. cbn [safe] in Hsq. destruct Hsq as [Hsq _]. contradiction.
    + unfold all_returned in Hnot.
      apply not_Forall_Exists in Hnot; [|intros p; apply returned_dec].
      apply Exists_exists in Hnot as (q & Hin & Hq).
      apply list_elem_of_lookup in Hin as [j Hj].
      exists j. apply (step_enabled hw m j q Hj); [exact Hq|].
      intros k _. exact Ho.
  - intros i k Hi. pose proof (Hsafe i _ Hi) as Hs. cbn [safe] in Hs.
    destruct Hs as [Hv _].
    destruct (view_cases (ec_lock m) b i) as [[Hown _]|[_ Hview]];
      [exact Hown | congruence].
  - intros i k Hi Hown. pose proof (Hsafe i _ Hi) as Hs. cbn [safe] in Hs.
    destruct Hs as [Hv _]. rewrite Hown, view_self in Hv.
    apply Hlock in Hv. congruence.
Qed.

Lemma callers_never_deadlock_witness :
  exists i,
    is_Some (step (scripted []) i
               (exec (scripted []) [1; 0; 0; 0]%nat (boot pool_two))).
Proof.
  apply (callers_never_deadlock (scripted []) pool_two [1; 0; 0; 0]%nat).
  unfold all_returned. vm_compute. intros H.
  apply Forall_cons in H as [H _]. discriminate H.
Defined.

(** ** Concurrent writers: the cache can fall behind the registers *)

(** X15: the agreement between cache and registers needs a single caller.
    With one thread writing duty 100 and another writing duty 200 while in
    manual mode, there is a schedule after which both have returned, the
    lock is free, the cached duty is 100 and the PWM register was last
    written the scaled value of 200: [set_fan_speed] stores the duty only
    after it has released the lock. *)
Theorem concurrent_writers_can_disagree hw :
  exists (pool : list (list call)) (sched : list nat),
    let m := exec hw sched (boot pool) in
    all_returned m /\
    ec_lock m = None /\
    fan_data (shared m) = {| pwm_value := 100; manual_mode := true |} /\
    register REG_PWM (trace (shared m)) = Some (scale_pwm 200) /\
    ~ coherent (shared m).
Proof.
  exists pool_race, sched_race. cbn zeta.
  assert (Hm : exec hw sched_race (boot pool_race)
               = {| shared :=
                      {| fan_data := {| pwm_value := 100; manual_mode := true |};
                         trace :=
                           critical_section
                             [ec_write_events REG_PWM (scale_pwm 255);
                              ec_write_events REG_MANUAL_ENABLE 1]
                           ++ critical_section
                                [ec_write_events REG_PWM (scale_pwm 100);
                                 ec_write_events REG_MANUAL_ENABLE 1]
                           ++ critical_section
                                [ec_write_events REG_PWM (scale_pwm 200);
                                 ec_write_events REG_MANUAL_ENABLE 1] |};
                    ec_lock := None;
                    threads := [Ret tt; Ret tt] |}).
  { vm_compute. reflexivity. }
  rewrite Hm. cbn [shared ec_lock threads fan_data trace].
  assert (Hreg : register REG_PWM
                   (critical_section
                      [ec_write_events REG_PWM (scale_pwm 255);
                       ec_write_events REG_MANUAL_ENABLE 1]
                    ++ critical_section
                         [ec_write_events REG_PWM (scale_pwm 100);
                          ec_write_events REG_MANUAL_ENABLE 1]
                    ++ critical_section
                         [ec_write_events REG_PWM (scale_pwm 200);
                          ec_write_events REG_MANUAL_ENABLE 1])
                 = Some (scale_pwm 200)).
  { vm_compute. reflexivity. }
  split; [repeat constructor|]. split; [reflexivity|]. split; [reflexivity|].
  split; [exact Hreg|].
  intros (_ & Hman & _). destruct (Hman eq_refl) as [_ Hpwm].
  cbn [trace fan_data pwm_value] in Hpwm. rewrite Hreg in Hpwm.
  vm_compute in Hpwm. discriminate Hpwm.
Qed.

(** ** Teardown and the pwm-enable attribute *)

(** X16: teardown does to the world exactly what a write of 0 to pwm-enable
    does.  Afterwards pwm-enable and pwm-input both read 0, the cached duty
    is the one from before, and tearing down a second time repeats the
    register write without changing the cached state. *)
Theorem gpd_remove_is_enable_zero hw (w : world) :
  let w1 := snd (run hw gpd_remove w) in
  w1 = snd (run hw (fan_write hwmon_pwm hwmon_pwm_enable 0) w) /\
  (forall val,
     fst (run hw (fan_read hwmon_pwm hwmon_pwm_enable val) w1) = (0, 0) /\
     fst (run hw (fan_read hwmon_pwm hwmon_pwm_input val) w1) = (0, 0)) /\
  pwm_value (fan_data w1) = pwm_value (fan_data w) /\
  fan_data (snd (run hw gpd_remove w1)) = fan_data w1 /\
  trace (snd (run hw gpd_remove w1))
  = trace w1 ++ critical_section [ec_write_events REG_MANUAL_ENABLE 0].
Proof.
  cbn zeta. unfold gpd_remove.
  rewrite fan_write_enable_auto, !run_set_auto_mode. cbn [snd].
  split; [reflexivity|]. split; [|repeat split].
  intros val.
  rewrite (proj1 (fan_read_pwm_from_cache_aux hw _ val)).
  rewrite (proj2 (fan_read_pwm_from_cache_aux hw _ val)).
  split; reflexivity.
Qed.
